(** * The DENM annotator: record derivation and box geometry

    A shallow embedding of the annotation core of [src/index.tsx]:
    the cause / sub-cause reference table, the incident record and its
    field-update operation ([updateField]), the box-update operation
    ([updateBox]), the pointer-move handler of the overlay
    ([BoxOverlay.handleMove]) and the export / import pair
    ([downloadJson], [processJsonFile]).

    Conventions of the embedding.
    - A JavaScript [number] that holds a code or a flag is an integer
      ([Z]); a number that holds a coordinate or a time is a rational
      ([Q]): finite values only, arithmetic without rounding error.
      The source computes in binary64: a quotient such as
      [(402 / 800) * 1000] is [502.49999999999994] there and [502.5]
      here, so next to a rounding tie the stored integer can be the
      other neighbour.  Statements that fix a stored coordinate for
      general pointer positions therefore leave a margin for that
      error; ranges, orderings and the values of the worked scenarios
      do not depend on it.
    - [Math.round x] is [floor (x + 1/2)], as ECMAScript defines it.
    - [null] (and [undefined]) in a nullable field is [None].
    - The React state updaters ([setJsonData (prev => ...)]) are the pure
      functions from the previous dataset to the next one. *)

From Stdlib Require Import ZArith QArith Qround Qminmax Lia Lqa.
From Stdlib Require Import Ascii String DecimalString.
From stdpp Require Import base option list.

Local Open Scope Z_scope.
Local Open Scope string_scope.
Local Open Scope list_scope.

(** ** JavaScript primitives used by the source *)

(** [String(n)] for an integer number [n]: its decimal numeral.  (From
    [10^21] on JavaScript prints an exponent instead; neither text is a
    key of the reference table.) *)
Definition String_of_number (n : Z) : string :=
  NilZero.string_of_int (Z.to_int n).

(** Property lookup [obj[key]] on an object literal with string keys;
    [None] is [undefined]. *)
Fixpoint prop_lookup {A : Type} (key : string) (obj : list (string * A))
  : option A :=
  match obj with
  | [] => None
  | (k, v) :: rest =>
      if String.eqb k key then Some v else prop_lookup key rest
  end.

(** [s || null] on a nullable string: the empty string is falsy. *)
Definition string_or_null (s : option string) : option string :=
  match s with
  | Some EmptyString => None
  | Some str => Some str
  | None => None
  end.

(** [n || null] on a nullable number: zero is falsy. *)
Definition number_or_null (n : option Z) : option Z :=
  match n with
  | Some 0 => None
  | Some k => Some k
  | None => None
  end.

(** [Math.round], [Math.min], [Math.max] on finite numbers. *)
Definition Math_round (x : Q) : Q := inject_Z (Qfloor (x + (1 # 2))%Q).
Definition Math_min (x y : Q) : Q := Qmin x y.
Definition Math_max (x y : Q) : Q := Qmax x y.

(** ** The DENM reference table *)

Record CauseInfo : Type := mkCauseInfo {
  name : string;
  subCauseCodes : list (string * string)
}.

Definition causeCodes : list (string * CauseInfo) :=
  [ ("2", mkCauseInfo "accident"
            [("7", "unsecured accident")]);
    ("3", mkCauseInfo "roadworks"
            [("2", "road marking work");
             ("3", "slow moving road maintenance");
             ("4", "short-term stationary roadworks")]);
    ("6", mkCauseInfo "adverseWeatherCondition-adhesion"
            [("0", "slippery road (generic)");
             ("2", "fuel on road");
             ("3", "mud on road");
             ("5", "ice on road");
             ("6", "black ice on road");
             ("7", "oil on road");
             ("8", "loose chippings")]);
    ("9", mkCauseInfo "hazardousLocation-surfaceCondition"
            [("0", "flooding");
             ("5", "snow drifts")]);
    ("10", mkCauseInfo "hazardousLocation-obstacleOnTheRoad"
            [("0", "objects on the road");
             ("1", "shed load");
             ("4", "large objects");
             ("5", "fallen trees")]);
    ("11", mkCauseInfo "hazardousLocation-animalOnTheRoad"
            [("0", "animals on roadway");
             ("2", "herd of animals");
             ("4", "large animals")]);
    ("12", mkCauseInfo "humanPresenceOnTheRoad"
            [("0", "people on roadway");
             ("1", "children on roadway");
             ("2", "cyclists on roadway")]);
    ("14", mkCauseInfo "wrongWayDriving"
            [("0", "wrong way driving")]);
    ("15", mkCauseInfo "rescueAndRecoveryWorkInProgress"
            [("0", "rescue and recovery work in progress")]);
    ("17", mkCauseInfo "adverseWeatherCondition-ExtremeWeather"
            [("1", "strong winds")]);
    ("18", mkCauseInfo "adverseWeatherCondition-Visibility"
            [("0", "visibility reduced (generic)");
             ("1", "visibility reduced due to fog");
             ("2", "visibility reduced due to smoke");
             ("3", "visibility reduced due to heavy snowfall");
             ("6", "visibility reduced due to low sun glare")]);
    ("19", mkCauseInfo "adverseWeatherCondition-Precipitation"
            [("1", "heavy rain");
             ("2", "heavy snowfall")]);
    ("94", mkCauseInfo "vehicleBreakdown"
            [("2", "broken down vehicle")]) ].

(** [DENM_MAPPING.causeCodes[String(code)]]; [String(null)] is the text
    [null], which is no key of the table. *)
Definition cause_info (code : option Z) : option CauseInfo :=
  match code with
  | Some c => prop_lookup (String_of_number c) causeCodes
  | None => None
  end.

Arguments cause_info : simpl never.

(** The sub-cause [sub] is a key of the sub-cause table of [cause]. *)
Definition sub_cause_in_table (cause sub : Z) : Prop :=
  exists info text,
    cause_info (Some cause) = Some info /\
    prop_lookup (String_of_number sub) (subCauseCodes info) = Some text.

(** ** Types *)

(** [IncidentBox = [t, ymin, xmin, ymax, xmax]]. *)
Record IncidentBox : Type := mkBox {
  box_t : Q;
  ymin : Q;
  xmin : Q;
  ymax : Q;
  xmax : Q
}.

Inductive MessageType : Type := DENM | none.

Record IncidentData : Type := mkIncidentData {
  incident : Z;
  message_type : MessageType;
  cause_code : option Z;
  sub_cause_code : option Z;
  cause_text : option string;
  sub_cause_text : option string;
  box_2d : list IncidentBox;
  description : string
}.

(** An assignment [(parsed as any)[key] = value], with [key] a key of
    [IncidentData] and [value] of that key's declared type. *)
Inductive FieldUpdate : Type :=
| Set_incident (value : Z)
| Set_message_type (value : MessageType)
| Set_cause_code (value : option Z)
| Set_sub_cause_code (value : option Z)
| Set_cause_text (value : option string)
| Set_sub_cause_text (value : option string)
| Set_box_2d (value : list IncidentBox)
| Set_description (value : string).

(** Single-field assignments [parsed.f = v] on a copy of the record. *)
Definition set_incident (v : Z) (p : IncidentData) : IncidentData :=
  mkIncidentData v (message_type p) (cause_code p) (sub_cause_code p)
    (cause_text p) (sub_cause_text p) (box_2d p) (description p).
Definition set_message_type (v : MessageType) (p : IncidentData) :=
  mkIncidentData (incident p) v (cause_code p) (sub_cause_code p)
    (cause_text p) (sub_cause_text p) (box_2d p) (description p).
Definition set_cause_code (v : option Z) (p : IncidentData) :=
  mkIncidentData (incident p) (message_type p) v (sub_cause_code p)
    (cause_text p) (sub_cause_text p) (box_2d p) (description p).
Definition set_sub_cause_code (v : option Z) (p : IncidentData) :=
  mkIncidentData (incident p) (message_type p) (cause_code p) v
    (cause_text p) (sub_cause_text p) (box_2d p) (description p).
Definition set_cause_text (v : option string) (p : IncidentData) :=
  mkIncidentData (incident p) (message_type p) (cause_code p)
    (sub_cause_code p) v (sub_cause_text p) (box_2d p) (description p).
Definition set_sub_cause_text (v : option string) (p : IncidentData) :=
  mkIncidentData (incident p) (message_type p) (cause_code p)
    (sub_cause_code p) (cause_text p) v (box_2d p) (description p).
Definition set_box_2d (v : list IncidentBox) (p : IncidentData) :=
  mkIncidentData (incident p) (message_type p) (cause_code p)
    (sub_cause_code p) (cause_text p) (sub_cause_text p) v (description p).
Definition set_description (v : string) (p : IncidentData) :=
  mkIncidentData (incident p) (message_type p) (cause_code p)
    (sub_cause_code p) (cause_text p) (sub_cause_text p) (box_2d p) v.

Definition assign (u : FieldUpdate) (p : IncidentData) : IncidentData :=
  match u with
  | Set_incident v => set_incident v p
  | Set_message_type v => set_message_type v p
  | Set_cause_code v => set_cause_code v p
  | Set_sub_cause_code v => set_sub_cause_code v p
  | Set_cause_text v => set_cause_text v p
  | Set_sub_cause_text v => set_sub_cause_text v p
  | Set_box_2d v => set_box_2d v p
  | Set_description v => set_description v p
  end.

(** The two boxes a freshly enabled incident gets:
    [[0, 0, 0, 0, 0], [1, 0, 0, 0, 0]]. *)
Definition default_boxes : list IncidentBox :=
  [ mkBox 0 0 0 0 0; mkBox 1 0 0 0 0 ]%Q.

(** [updateField] on one record, the [updateField(R, f, v)] of the
    data model: the body of the updater on the copied [_parsed] record
    (source lines 425-474), that is the assignment followed by the three
    blocks of auto-logic, each guarded by the key. *)
Definition updateParsed (u : FieldUpdate) (parsed0 : IncidentData)
  : IncidentData :=
  let parsed := assign u parsed0 in
  let parsed :=
    match u with
    | Set_incident value =>
        if (value =? 1)%Z then
          let parsed := set_message_type DENM parsed in
          if negb (length (box_2d parsed) =? 2)%nat
          then set_box_2d default_boxes parsed
          else parsed
        else
          set_box_2d []
            (set_sub_cause_text None
               (set_cause_text None
                  (set_sub_cause_code None
                     (set_cause_code None
                        (set_message_type none parsed)))))
    | _ => parsed
    end in
  let parsed :=
    match u with
    | Set_cause_code value =>
        let parsed :=
          match value with
          | None | Some 0 =>
              set_cause_text None (set_cause_code None parsed)
          | Some _ =>
              match cause_info value with
              | Some info => set_cause_text (Some (name info)) parsed
              | None => set_cause_text None parsed
              end
          end in
        set_sub_cause_text None (set_sub_cause_code None parsed)
    | _ => parsed
    end in
  match u with
  | Set_sub_cause_code value =>
      match value with
      | None | Some 0 =>
          set_sub_cause_text None (set_sub_cause_code None parsed)
      | Some v =>
          match cause_info (cause_code parsed) with
          | Some info =>
              set_sub_cause_text
                (string_or_null
                   (prop_lookup (String_of_number v) (subCauseCodes info)))
                parsed
          | None => parsed
          end
      end
  | _ => parsed
  end.

(** ** The dataset state *)

(** A conversation entry's [value] is a string; the strings are kept by
    what [JSON.parse] makes of them.
    - [Json d]: the JSON text of the incident record [d], that is
      [JSON.stringify d]; [JSON.parse] of it gives [d] back.
    - [JsonFalsy]: a JSON text of a falsy value ([null], [false], [0],
      the empty string literal); [JSON.parse] returns that value without
      throwing.
    - [Text s]: the string [s], for an [s] that is empty or no JSON text
      at all, so that [JSON.parse s] throws (the wording of a prompt, a
      sentence).
    A JSON text of any other value (a non-zero number, an array, an
    object that is no incident record) has no representation: the value
    it parses to does not have the declared type of [_parsed]. *)
Inductive Payload : Type :=
| Text (s : string)
| Json (d : IncidentData)
| JsonFalsy.

Record Message : Type := mkMessage {
  from : string;
  value : Payload
}.

(** A dataset item.  [_parsed] is the optional internal working record;
    [type] is the derived root-level label (absent until an export writes
    it); [rest] stands for the further keys an item may carry
    ([[key: string]: any]), which no operation here reads or writes. *)
Record DatasetItem : Type := mkItem {
  id : Z;
  video : string;
  conversations : list Message;
  _parsed : option IncidentData;
  type : option string;
  rest : list (string * string)
}.

Definition set_parsed (v : option IncidentData) (item : DatasetItem) :=
  mkItem (id item) (video item) (conversations item) v (type item)
    (rest item).

(** [data[i]] for a number [i]: [undefined] outside the array. *)
Definition item_at (data : list DatasetItem) (i : Z) : option DatasetItem :=
  if (i <? 0)%Z then None else data !! Z.to_nat i.

(** [updateField]: the updater passed to [setJsonData]. *)
Definition updateField (selectedItemIndex : Z) (u : FieldUpdate)
    (prev : list DatasetItem) : list DatasetItem :=
  if (selectedItemIndex =? -1)%Z then prev
  else
    match item_at prev selectedItemIndex with
    | None => prev
    | Some item =>
        match _parsed item with
        | None => prev
        | Some parsed =>
            <[Z.to_nat selectedItemIndex :=
                set_parsed (Some (updateParsed u parsed)) item]> prev
        end
    end.

(** The two keyframes: [0] is the start frame, [1] the end frame. *)
Inductive Keyframe : Type := StartFrame | EndFrame.

Definition keyframe_index (k : Keyframe) : nat :=
  match k with StartFrame => 0%nat | EndFrame => 1%nat end.

(** [Math.round(Math.max(0, Math.min(1000, x)))]. *)
Definition clamp_round (x : Q) : Q :=
  Math_round (Math_max 0 (Math_min 1000 x)).

(** The [clamped] box built inside [updateBox]: the time is taken over
    as it is, the four coordinates are clamped and rounded. *)
Definition clamped (newBox : IncidentBox) : IncidentBox :=
  mkBox (box_t newBox)
        (clamp_round (ymin newBox))
        (clamp_round (xmin newBox))
        (clamp_round (ymax newBox))
        (clamp_round (xmax newBox)).

(** [updateBox]: the updater passed to [setJsonData]. *)
Definition updateBox (selectedItemIndex : Z) (idx : Keyframe)
    (newBox : IncidentBox) (prev : list DatasetItem) : list DatasetItem :=
  if (selectedItemIndex =? -1)%Z then prev
  else
    match item_at prev selectedItemIndex with
    | None => prev
    | Some item =>
        match _parsed item with
        | None => prev
        | Some parsed =>
            if ((incident parsed =? 1)%Z
                && (length (box_2d parsed) =? 2)%nat)%bool
            then
              let boxes :=
                <[keyframe_index idx := clamped newBox]> (box_2d parsed) in
              <[Z.to_nat selectedItemIndex :=
                  set_parsed (Some (set_box_2d boxes parsed)) item]> prev
            else prev
        end
    end.

(** ** The keyframe editor row *)

(** The box the editor row shows: the row is rendered only for a selected
    item whose record has [incident === 1] and two boxes. *)
Definition editor_box (selectedItemIndex : Z) (activeKeyframe : Keyframe)
    (data : list DatasetItem) : option IncidentBox :=
  match item_at data selectedItemIndex with
  | None => None
  | Some item =>
      match _parsed item with
      | None => None
      | Some parsed =>
          if ((incident parsed =? 1)%Z
              && (length (box_2d parsed) =? 2)%nat)%bool
          then box_2d parsed !! keyframe_index activeKeyframe
          else None
      end
  end.

(** The four coordinate controls, for the array indices 1 to 4. *)
Inductive Coord : Type := Y_Min | X_Min | Y_Max | X_Max.

(** [newBox = [...box]; newBox[idx] = v]. *)
Definition box_with (c : Coord) (v : Q) (b : IncidentBox) : IncidentBox :=
  match c with
  | Y_Min => mkBox (box_t b) v (xmin b) (ymax b) (xmax b)
  | X_Min => mkBox (box_t b) (ymin b) v (ymax b) (xmax b)
  | Y_Max => mkBox (box_t b) (ymin b) (xmin b) v (xmax b)
  | X_Max => mkBox (box_t b) (ymin b) (xmin b) (ymax b) v
  end.

(** [onChange] of a [CoordControl] (typed value, or the +20 / -20
    buttons, which pass [value + 20] and [value - 20]). *)
Definition coordControl_onChange (selectedItemIndex : Z)
    (activeKeyframe : Keyframe) (c : Coord) (v : Q)
    (data : list DatasetItem) : list DatasetItem :=
  match editor_box selectedItemIndex activeKeyframe data with
  | Some box =>
      updateBox selectedItemIndex activeKeyframe (box_with c v box) data
  | None => data
  end.

(** [onChange] of the manual time input: [s] is the parsed number of
    seconds (the handler does nothing when it is [NaN]). *)
Definition timeInput_onChange (selectedItemIndex : Z)
    (activeKeyframe : Keyframe) (duration s : Q)
    (data : list DatasetItem) : list DatasetItem :=
  match editor_box selectedItemIndex activeKeyframe data with
  | Some old =>
      if Qle_bool duration 0 then data
      else
        updateBox selectedItemIndex activeKeyframe
          (mkBox (s / duration) (ymin old) (xmin old) (ymax old) (xmax old))
          data
  | None => data
  end.

(** ** The overlay: [BoxOverlay.handleMove] *)

Module Mode.
Inductive t : Type :=
  move | nw | ne | sw | se | n | s | e | w | draw.
End Mode.

Record DOMRect : Type := mkRect {
  left : Q;
  top : Q;
  width : Q;
  height : Q
}.

Record MouseEvent : Type := mkMouse {
  clientX : Q;
  clientY : Q
}.

Record DragState : Type := mkDrag {
  mode : Mode.t;
  startX : Q;
  startY : Q;
  startBox : IncidentBox;
  rect : DOMRect
}.

(** [normalize = (val, dim) => (val / dim) * 1000]. *)
Definition normalize (val dim : Q) : Q := ((val / dim) * 1000)%Q.

(** [Math.max(0, Math.min(1000, x))]. *)
Definition clamp (x : Q) : Q := Math_max 0 (Math_min 1000 x).

(** [Math.sqrt(dx*dx + dy*dy) < d] for [d >= 0], decided on the squares. *)
Definition travel_below (d dx dy : Q) : bool :=
  negb (Qle_bool (d * d) (dx * dx + dy * dy)).

(** [handleMove]: the box handed to [onUpdate(activeKeyframe, _)], or
    [None] when the handler returns without calling [onUpdate]. *)
Definition handleMove (dragState : DragState) (ev : MouseEvent)
  : option IncidentBox :=
  let rect := rect dragState in
  if (Qeq_bool (width rect) 0 || Qeq_bool (height rect) 0)%bool then None
  else
    match mode dragState with
    | Mode.draw =>
        let dx := (clientX ev - startX dragState)%Q in
        let dy := (clientY ev - startY dragState)%Q in
        if travel_below 15 dx dy then None
        else
          let startXRel :=
            normalize (startX dragState - left rect) (width rect) in
          let startYRel :=
            normalize (startY dragState - top rect) (height rect) in
          let currXRel := normalize (clientX ev - left rect) (width rect) in
          let currYRel := normalize (clientY ev - top rect) (height rect) in
          let nXmin := Math_min startXRel currXRel in
          let nXmax := Math_max startXRel currXRel in
          let nYmin := Math_min startYRel currYRel in
          let nYmax := Math_max startYRel currYRel in
          Some (mkBox (box_t (startBox dragState))
                      (clamp nYmin) (clamp nXmin) (clamp nYmax) (clamp nXmax))
    | m =>
        let dxPx := (clientX ev - startX dragState)%Q in
        let dyPx := (clientY ev - startY dragState)%Q in
        let dx := ((dxPx / width rect) * 1000)%Q in
        let dy := ((dyPx / height rect) * 1000)%Q in
        let b := startBox dragState in
        let '(nYmin, nXmin, nYmax, nXmax) :=
          match m with
          | Mode.move =>
              (ymin b + dy, xmin b + dx, ymax b + dy, xmax b + dx)%Q
          | Mode.nw => (ymin b + dy, xmin b + dx, ymax b, xmax b)%Q
          | Mode.ne => (ymin b + dy, xmin b, ymax b, xmax b + dx)%Q
          | Mode.sw => (ymin b, xmin b + dx, ymax b + dy, xmax b)%Q
          | Mode.se => (ymin b, xmin b, ymax b + dy, xmax b + dx)%Q
          | Mode.n => (ymin b + dy, xmin b, ymax b, xmax b)%Q
          | Mode.s => (ymin b, xmin b, ymax b + dy, xmax b)%Q
          | Mode.w => (ymin b, xmin b + dx, ymax b, xmax b)%Q
          | Mode.e => (ymin b, xmin b, ymax b, xmax b + dx)%Q
          | Mode.draw => (ymin b, xmin b, ymax b, xmax b)
          end in
        let finalXmin := Math_min nXmin nXmax in
        let finalXmax := Math_max nXmin nXmax in
        let finalYmin := Math_min nYmin nYmax in
        let finalYmax := Math_max nYmin nYmax in
        Some (mkBox (box_t b)
                    (clamp finalYmin) (clamp finalXmin)
                    (clamp finalYmax) (clamp finalXmax))
    end.

(** A pointer move during a drag: [handleMove] with [onUpdate] bound to
    [updateBox]. *)
Definition pointerMove (selectedItemIndex : Z) (activeKeyframe : Keyframe)
    (dragState : DragState) (ev : MouseEvent) (data : list DatasetItem)
  : list DatasetItem :=
  match handleMove dragState ev with
  | Some box => updateBox selectedItemIndex activeKeyframe box data
  | None => data
  end.

(** ** Import and export *)

(** [Array.prototype.findIndex]; [None] stands for [-1]. *)
Fixpoint findIndex {A : Type} (f : A -> bool) (l : list A) : option nat :=
  match l with
  | [] => None
  | x :: l' => if f x then Some 0%nat else S <$> findIndex f l'
  end.

(** [c => c.from === 'assistant']. *)
Definition is_assistant (c : Message) : bool :=
  String.eqb (from c) "assistant".

(** The record every loader falls back to. *)
Definition default_record : IncidentData :=
  mkIncidentData 0 none None None None None [] "".

(** The item mapper of [processJsonFile]: [_parsed] becomes what
    [JSON.parse] returns for the first assistant message.  The default
    record is assigned when there is no such message, when its value is
    empty (the [else] branch) and when [JSON.parse] throws (the [catch]
    branch); a falsy parsed value is stored as it is, which leaves the
    item without a working record. *)
Definition processItem (item : DatasetItem) : DatasetItem :=
  match List.find is_assistant (conversations item) with
  | Some assistant =>
      match value assistant with
      | Json d => set_parsed (Some d) item
      | JsonFalsy => set_parsed None item
      | Text _ => set_parsed (Some default_record) item
      end
  | None => set_parsed (Some default_record) item
  end.

Definition processJsonFile (arr : list DatasetItem) : list DatasetItem :=
  processItem <$> arr.

(** [String.prototype.toLowerCase] on the ASCII letters, the only
    capitals in the texts of the reference table.  (The source's
    function also lowers capitals outside ASCII, which this one leaves
    as they are.) *)
Definition lower_ascii (c : ascii) : ascii :=
  let k := nat_of_ascii c in
  if ((65 <=? k)%nat && (k <=? 90)%nat)%bool then ascii_of_nat (k + 32)
  else c.

Fixpoint toLowerCase (s : string) : string :=
  match s with
  | EmptyString => EmptyString
  | String c s' => String (lower_ascii c) (toLowerCase s')
  end.

(** [cleanParsed] of [downloadJson], from [newItem._parsed || {}]: with
    no [_parsed] every destructured field is [undefined]. *)
Definition cleanParsed (p : option IncidentData) : IncidentData :=
  let is1 :=
    match incident <$> p with
    | Some i => (i =? 1)%Z
    | None => false
    end in
  mkIncidentData
    (default 0%Z (incident <$> p))
    (if is1 then DENM else none)
    (if is1 then number_or_null (p ≫= cause_code) else None)
    (if is1 then number_or_null (p ≫= sub_cause_code) else None)
    (if is1 then string_or_null (p ≫= cause_text) else None)
    (if is1 then string_or_null (p ≫= sub_cause_text) else None)
    (if is1 then default [] (box_2d <$> p) else [])
    (default "" (description <$> p)).

(** The root [type] label computed from [cleanParsed]. *)
Definition type_label (c : IncidentData) : string :=
  match (incident c =? 1)%Z, string_or_null (cause_text c) with
  | true, Some ct =>
      let cText := toLowerCase ct in
      let sText :=
        match string_or_null (sub_cause_text c) with
        | Some st => toLowerCase st
        | None => ""
        end in
      match sText with
      | EmptyString => cText
      | _ => cText ++ " - " ++ sText
      end
  | _, _ => "none"
  end.

Section Serialization.

(** The text of the human message that [downloadJson] writes when an
    item has no conversation yet.  Its wording plays no role here. *)
Variable prompt : string.

(** The conversation list after the assistant message was updated or
    created. *)
Definition export_conversations (jsonStr : Payload)
    (convs : list Message) : list Message :=
  match convs with
  | [] => [ mkMessage "human" (Text prompt);
            mkMessage "assistant" jsonStr ]
  | _ =>
      match findIndex is_assistant convs with
      | Some assistantIdx =>
          alter (fun c => mkMessage (from c) jsonStr) assistantIdx convs
      | None => convs ++ [ mkMessage "assistant" jsonStr ]
      end
  end.

(** The item mapper of [downloadJson]: the storage form of one item. *)
Definition toStorageForm (item : DatasetItem) : DatasetItem :=
  let clean := cleanParsed (_parsed item) in
  mkItem (id item) (video item)
    (export_conversations (Json clean) (conversations item))
    None
    (Some (type_label clean))
    (rest item).

Definition downloadJson (jsonData : list DatasetItem)
  : list DatasetItem :=
  toStorageForm <$> jsonData.

End Serialization.

(** ** The invariants of the data model *)

(** A coordinate is an integer of the grid [0..1000]. *)
Definition coord_ok (x : Q) : Prop :=
  exists z : Z, (x == inject_Z z)%Q /\ (0 <= z <= 1000)%Z.

Definition time_ok (t : Q) : Prop := (0 <= t)%Q /\ (t <= 1)%Q.

Definition box_ok (b : IncidentBox) : Prop :=
  time_ok (box_t b) /\
  coord_ok (ymin b) /\ coord_ok (xmin b) /\
  coord_ok (ymax b) /\ coord_ok (xmax b).

(** [yMin <= yMax] and [xMin <= xMax]. *)
Definition box_ordered (b : IncidentBox) : Prop :=
  (ymin b <= ymax b)%Q /\ (xmin b <= xmax b)%Q.

Definition invariant1 (p : IncidentData) : Prop :=
  incident p = 0 ->
  message_type p = none /\ cause_code p = None /\ sub_cause_code p = None /\
  cause_text p = None /\ sub_cause_text p = None /\ box_2d p = [].

Definition invariant2 (p : IncidentData) : Prop :=
  incident p = 1 -> message_type p = DENM /\ length (box_2d p) = 2%nat.

Definition invariant3 (p : IncidentData) : Prop :=
  forall sub, sub_cause_code p = Some sub ->
    exists cause, cause_code p = Some cause /\ sub_cause_in_table cause sub.

Definition invariant4 (p : IncidentData) : Prop :=
  Forall box_ok (box_2d p).

Definition invariants (p : IncidentData) : Prop :=
  invariant1 p /\ invariant2 p /\ invariant3 p /\ invariant4 p.

(** The field updates the inspector issues on a record [R]: the incident
    toggle and the description at any time; the cause and sub-cause
    selectors only while [incident = 1], the sub-cause selector offering
    the empty choice and the keys of the current cause's table. *)
Inductive inspector_update (R : IncidentData) : FieldUpdate -> Prop :=
| upd_incident (v : Z) :
    inspector_update R (Set_incident v)
| upd_description (v : string) :
    inspector_update R (Set_description v)
| upd_cause_code (v : option Z) :
    incident R = 1 ->
    inspector_update R (Set_cause_code v)
| upd_sub_cause_clear :
    incident R = 1 ->
    inspector_update R (Set_sub_cause_code None)
| upd_sub_cause_key (cause sub : Z) :
    incident R = 1 ->
    cause_code R = Some cause ->
    sub_cause_in_table cause sub ->
    inspector_update R (Set_sub_cause_code (Some sub)).

(** A record with an incident, cause 6 and no sub-cause yet. *)
Definition adhesion_record : IncidentData :=
  mkIncidentData 1 DENM (Some 6) None
    (Some "adverseWeatherCondition-adhesion") None default_boxes "".

(** The box stored for keyframe [idx] of the selected item. *)
Definition stored_box (selectedItemIndex : Z) (idx : Keyframe)
    (data : list DatasetItem) : option IncidentBox :=
  item ← item_at data selectedItemIndex;
  parsed ← _parsed item;
  box_2d parsed !! keyframe_index idx.

(** A dataset of one item that carries the record [R]. *)
Definition single (R : IncidentData) : list DatasetItem :=
  [ mkItem 7 "clip.mp4" [] (Some R) None [] ].

(** An incident record whose start box is [[0.1, 0, 0, 100, 100]]. *)
Definition corner_record : IncidentData :=
  mkIncidentData 1 DENM None None None None
    [ mkBox (1 # 10) 0 0 100 100; mkBox 1 0 0 0 0 ]%Q "".

(** An incident record whose start box is [[0, 90, 0, 100, 100]]. *)
Definition thin_record : IncidentData :=
  mkIncidentData 1 DENM None None None None
    [ mkBox 0 90 0 100 100; mkBox 1 0 0 0 0 ]%Q "".

(** ** Further parts of the editor *)

(** [onClick] of the Sync Time button: the playback position, as a
    fraction of the duration, becomes the time of the active box. *)
Definition syncTime_onClick (selectedItemIndex : Z)
    (activeKeyframe : Keyframe) (duration currentTime : Q)
    (data : list DatasetItem) : list DatasetItem :=
  match editor_box selectedItemIndex activeKeyframe data with
  | Some currentBox =>
      let newT :=
        if Qle_bool duration 0 then 0%Q else (currentTime / duration)%Q in
      updateBox selectedItemIndex activeKeyframe
        (mkBox newT (ymin currentBox) (xmin currentBox)
               (ymax currentBox) (xmax currentBox))
        data
  | None => data
  end.

(** The computed type shown in the inspector ([typeDisplay]). *)
Definition typeDisplay (parsed : option IncidentData) : string :=
  match parsed with
  | Some p =>
      match (incident p =? 1)%Z, string_or_null (cause_text p) with
      | true, Some ct =>
          match string_or_null (sub_cause_text p) with
          | Some st => ct ++ " - " ++ st
          | None => ct
          end
      | _, _ => "none"
      end
  | None => "none"
  end.

(** The overlay rectangle in percent of the container
    ([top], [left], [width], [height] of [style]). *)
Record BoxStyle : Type := mkStyle {
  style_top : Q;
  style_left : Q;
  style_width : Q;
  style_height : Q
}.

Definition boxStyle (b : IncidentBox) : BoxStyle :=
  mkStyle (ymin b / 10) (xmin b / 10)
          ((xmax b - xmin b) / 10) ((ymax b - ymin b) / 10).

(** [handleUp]: whether the handler calls [onTogglePlay]
    ([Math.sqrt] of the squared distance below 5, in draw mode only).
    In every case it ends the drag. *)
Definition handleUp (dragState : DragState) (ev : MouseEvent) : bool :=
  match mode dragState with
  | Mode.draw =>
      travel_below 5 (clientX ev - startX dragState)
                     (clientY ev - startY dragState)
  | _ => false
  end.

(** The pointer events of the overlay: a press on the box body
    ([Mode.move]), on a handle (a resize mode) or on the free container
    area ([Mode.draw]), with the container rectangle read at that
    moment; a move; a release. *)
Inductive PointerEvent : Type :=
| MouseDown (m : Mode.t) (ev : MouseEvent) (r : DOMRect)
| MouseMove (ev : MouseEvent)
| MouseUp (ev : MouseEvent).

(** What the pointer events act on: the dataset, the drag state of the
    overlay, and the number of calls of [onTogglePlay] made so far. *)
Record Editor : Type := mkEditor {
  jsonData : list DatasetItem;
  dragState : option DragState;
  togglePlayCalls : nat
}.

(** One pointer event.  The overlay exists only while the editor row
    does, so a press without it has no effect; the move and release
    listeners are attached only during a drag. *)
Definition overlay_step (selectedItemIndex : Z) (activeKeyframe : Keyframe)
    (st : Editor) (e : PointerEvent) : Editor :=
  match e with
  | MouseDown m ev r =>
      match editor_box selectedItemIndex activeKeyframe (jsonData st) with
      | Some b =>
          mkEditor (jsonData st)
            (Some (mkDrag m (clientX ev) (clientY ev) b r))
            (togglePlayCalls st)
      | None => st
      end
  | MouseMove ev =>
      match dragState st with
      | Some ds =>
          mkEditor
            (pointerMove selectedItemIndex activeKeyframe ds ev (jsonData st))
            (Some ds) (togglePlayCalls st)
      | None => st
      end
  | MouseUp ev =>
      match dragState st with
      | Some ds =>
          mkEditor (jsonData st) None
            (if handleUp ds ev then S (togglePlayCalls st)
             else togglePlayCalls st)
      | None => st
      end
  end.

Definition overlay_run (selectedItemIndex : Z) (activeKeyframe : Keyframe)
    (st : Editor) (events : list PointerEvent) : Editor :=
  fold_left (overlay_step selectedItemIndex activeKeyframe) events st.

(** [s.split('/').pop()]: the part of [s] after its last slash.
    [cand] is the part after the last slash met so far. *)
Fixpoint basename_from (cand s : string) : string :=
  match s with
  | EmptyString => cand
  | String c s' =>
      if Ascii.eqb c "/" then basename_from s' s' else basename_from cand s'
  end.

Definition basename (s : string) : string := basename_from s s.

(** [videoFiles.has(c)] for a candidate that may be [undefined]; the map
    of video files is kept as its entries in insertion order. *)
Definition has_file (videoFiles : list (string * string))
    (c : option string) : bool :=
  match c with
  | Some k => bool_decide (is_Some (prop_lookup k videoFiles))
  | None => false
  end.

(** The video matcher: the URL of the item's video, by its [video] or
    [video_filename] entry, by full name first and by base name next. *)
Definition videoUrl (videoFiles : list (string * string))
    (item : DatasetItem) : option string :=
  let candidates :=
    [ Some (video item); prop_lookup "video_filename" (rest item) ] in
  let by_name :=
    mjoin (List.find (has_file videoFiles) candidates) in
  let by_base :=
    mjoin (List.find (fun c => has_file videoFiles (basename <$> c))
             candidates) in
  let matched :=
    match string_or_null by_name with
    | Some m => Some m
    | None => by_base
    end in
  match string_or_null matched with
  | Some m =>
      match string_or_null (prop_lookup m videoFiles) with
      | Some url => Some url
      | None => prop_lookup (basename m) videoFiles
      end
  | None => None
  end.

(** The item [startWorkspace] generates for the video file [fname] at
    position [i]. *)
Definition generated_item (i : nat) (fname : string) : DatasetItem :=
  mkItem (Z.of_nat i) fname
    [ mkMessage "human" (Text "<video>
Analyze the traffic situation.");
      mkMessage "assistant" (Text "") ]
    (Some default_record) None [].

(** [startWorkspace]: the dataset, the selected index and the workspace
    flag after the call. *)
Definition startWorkspace (data : list DatasetItem)
    (videoFiles : list (string * string))
  : list DatasetItem * Z * bool :=
  let data' :=
    if ((length data =? 0)%nat && (0 <? length videoFiles)%nat)%bool
    then imap generated_item (videoFiles.*1)
    else data in
  (data', 0%Z, true).

(** Whether the text contains a slash. *)
Fixpoint has_slash (s : string) : bool :=
  match s with
  | EmptyString => false
  | String c s' => (Ascii.eqb c "/" || has_slash s')%bool
  end.

(** The handles on the top and bottom edge ([n], [s]) and on the left and
    right edge ([w], [e]). *)
Definition vertical_handle (m : Mode.t) : bool :=
  match m with Mode.n | Mode.s => true | _ => false end.

Definition horizontal_handle (m : Mode.t) : bool :=
  match m with Mode.w | Mode.e => true | _ => false end.

(** [box[idx]] for the index of a coordinate control. *)
Definition box_coord (c : Coord) (b : IncidentBox) : Q :=
  match c with
  | Y_Min => ymin b
  | X_Min => xmin b
  | Y_Max => ymax b
  | X_Max => xmax b
  end.

(** ** Further predicates *)

(** [s] is the grid coordinate stored for the exact value [c]: an
    integer of [0..1000] at a distance of at most 1/2 from [c], with a
    margin of 1/1000 for the rounding error of the source's
    floating-point evaluation of [c]. *)
Definition stored_near (s c : Q) : Prop :=
  coord_ok s /\
  (c - (501 # 1000) <= s)%Q /\ (s <= c + (501 # 1000))%Q.

(** A box on the grid with ordered corners. *)
Definition valid_box (b : IncidentBox) : Prop :=
  coord_ok (ymin b) /\ coord_ok (xmin b) /\
  coord_ok (ymax b) /\ coord_ok (xmax b) /\ box_ordered b.

(** Every stored box of the dataset is valid. *)
Definition boxes_valid (data : list DatasetItem) : Prop :=
  forall (j : Z) (k : Keyframe) (b : IncidentBox),
    stored_box j k data = Some b -> valid_box b.

(** What a gesture on keyframe [k] of the selected item leaves alone,
    from a dataset [d0] to a dataset [d]: the length, the other items,
    the selected item apart from its record, the record apart from its
    boxes, the box of the other keyframe, and the time of the box of
    keyframe [k]. *)
Definition gesture_frame (sel : Z) (k : Keyframe)
    (d0 d : list DatasetItem) : Prop :=
  length d = length d0 /\
  (forall j, j <> sel -> item_at d j = item_at d0 j) /\
  set_parsed None <$> item_at d sel = set_parsed None <$> item_at d0 sel /\
  set_box_2d [] <$> (item_at d sel ≫= _parsed)
    = set_box_2d [] <$> (item_at d0 sel ≫= _parsed) /\
  (forall k', k' <> k -> stored_box sel k' d = stored_box sel k' d0) /\
  box_t <$> stored_box sel k d = box_t <$> stored_box sel k d0.

(** During a drag the start box carries the time of the stored box. *)
Definition drag_consistent (sel : Z) (k : Keyframe) (st : Editor) : Prop :=
  forall ds, dragState st = Some ds ->
    box_t <$> stored_box sel k (jsonData st) = Some (box_t (startBox ds)).

(** The derived texts are the ones the table gives for the codes. *)
Definition texts_consistent (p : IncidentData) : Prop :=
  cause_text p = name <$> cause_info (cause_code p) /\
  sub_cause_text p =
    match sub_cause_code p with
    | Some sub =>
        info ← cause_info (cause_code p);
        string_or_null
          (prop_lookup (String_of_number sub) (subCauseCodes info))
    | None => None
    end.

(** The records the export writes back unchanged. *)
Definition storage_normal (p : IncidentData) : Prop :=
  (incident p = 1 ->
   message_type p = DENM /\
   cause_code p <> Some 0 /\ sub_cause_code p <> Some 0 /\
   cause_text p <> Some "" /\ sub_cause_text p <> Some "")
  /\
  (incident p <> 1 ->
   message_type p = none /\ cause_code p = None /\
   sub_cause_code p = None /\ cause_text p = None /\
   sub_cause_text p = None /\ box_2d p = []).

(** The updates through which the inspector and the toggle write codes:
    every key except a direct write to a derived text, the message type
    or the boxes. *)
Definition derives_texts (u : FieldUpdate) : Prop :=
  match u with
  | Set_incident _ | Set_cause_code _ | Set_sub_cause_code _
  | Set_description _ => True
  | _ => False
  end.

(** ** Facts about the record derivation *)

Lemma default_boxes_ok : Forall box_ok default_boxes.
Proof.
  assert (Hz : coord_ok 0) by (exists 0%Z; split; [reflexivity | lia]).
  unfold default_boxes, box_ok, time_ok.
  apply Forall_cons; split; [simpl; repeat split; (lra || exact Hz)|].
  apply Forall_cons; split; [simpl; repeat split; (lra || exact Hz)|].
  apply Forall_nil_2.
Qed.

Lemma cause_info_6 :
  cause_info (Some 6) =
  Some (mkCauseInfo "adverseWeatherCondition-adhesion"
          [("0", "slippery road (generic)"); ("2", "fuel on road");
           ("3", "mud on road"); ("5", "ice on road");
           ("6", "black ice on road"); ("7", "oil on road");
           ("8", "loose chippings")]).
Proof. reflexivity. Qed.

(** Case analysis on every pending table lookup of the goal. *)
Ltac case_info :=
  repeat match goal with
         | |- context [match cause_info ?c with _ => _ end] =>
             destruct (cause_info c)
         end.

(** Only the incident toggle changes the boxes. *)
Lemma updateParsed_box_2d (u : FieldUpdate) (R : IncidentData) :
  box_2d (updateParsed u R) =
  match u with
  | Set_incident v =>
      if (v =? 1)%Z
      then if (length (box_2d R) =? 2)%nat then box_2d R else default_boxes
      else []
  | Set_box_2d v => v
  | _ => box_2d R
  end.
Proof.
  destruct u as [v| |v|v| | | |]; simpl; try reflexivity.
  - destruct (v =? 1)%Z; simpl; [|reflexivity].
    destruct (length (box_2d R) =? 2)%nat; reflexivity.
  - destruct v as [[|c|c]|]; simpl; try reflexivity.
    destruct (cause_info (Some (Z.pos c))); reflexivity.
  - destruct v as [[| |]|]; simpl; try reflexivity;
      destruct (cause_info (cause_code R)); reflexivity.
Qed.

(** The selected item after [updateField]. *)
Lemma updateField_selected (sel : Z) (u : FieldUpdate)
    (prev : list DatasetItem) (item : DatasetItem) (R : IncidentData) :
  item_at prev sel = Some item ->
  _parsed item = Some R ->
  item_at (updateField sel u prev) sel =
  Some (set_parsed (Some (updateParsed u R)) item).
Proof.
  unfold updateField, item_at. intros Hit HR.
  destruct (sel <? 0)%Z eqn:Hneg; [discriminate|].
  destruct (sel =? -1)%Z eqn:Hm; [lia|].
  rewrite Hit, HR.
  apply list_lookup_insert_eq. by eapply lookup_lt_Some.
Qed.

(** ** C2: the incident toggle *)

(** C2. For every record, [updateField(R, 'incident', 1)] sets
    [message_type] to [DENM] and replaces [box_2d] by the two default
    boxes [[0,0,0,0,0]] and [[1,0,0,0,0]] unless it already has length 2;
    [updateField(R, 'incident', 0)] sets [message_type] to [none], the
    cause and sub-cause codes and texts to [null] and [box_2d] to the
    empty list.  Nothing else changes. *)
Theorem incident_toggle_derivation (R : IncidentData) :
  updateParsed (Set_incident 1) R =
    mkIncidentData 1 DENM (cause_code R) (sub_cause_code R)
      (cause_text R) (sub_cause_text R)
      (if (length (box_2d R) =? 2)%nat then box_2d R
       else [ mkBox 0 0 0 0 0; mkBox 1 0 0 0 0 ]%Q)
      (description R)
  /\ updateParsed (Set_incident 0) R =
       mkIncidentData 0 none None None None None [] (description R).
Proof.
  split; [|reflexivity].
  unfold updateParsed; simpl.
  destruct (length (box_2d R) =? 2)%nat; reflexivity.
Qed.

(** ** C8: cause / sub-cause coupling *)

(** C8. For every record [R] with [incident = 1]: after
    [updateField(R, 'cause_code', 6)] the sub-cause code and text are
    [null] and the cause text is the table name of code 6; after a
    further [updateField(_, 'sub_cause_code', 5)] the sub-cause text is
    "ice on road". *)
Theorem cause_sub_cause_coupling (R : IncidentData) :
  incident R = 1 ->
  let R1 := updateParsed (Set_cause_code (Some 6)) R in
  let R2 := updateParsed (Set_sub_cause_code (Some 5)) R1 in
  cause_code R1 = Some 6 /\
  cause_text R1 = Some "adverseWeatherCondition-adhesion" /\
  sub_cause_code R1 = None /\
  sub_cause_text R1 = None /\
  cause_code R2 = Some 6 /\
  sub_cause_code R2 = Some 5 /\
  sub_cause_text R2 = Some "ice on road".
Proof.
  intros _. cbv zeta. repeat split; reflexivity.
Qed.

Lemma cause_sub_cause_coupling_witness :
  incident adhesion_record = 1 /\
  sub_cause_text
    (updateParsed (Set_sub_cause_code (Some 5))
       (updateParsed (Set_cause_code (Some 6)) adhesion_record))
  = Some "ice on road".
Proof.
  split; [reflexivity|].
  apply (cause_sub_cause_coupling adhesion_record). reflexivity.
Defined.

(** ** C10: sub-cause code 0 *)

(** C10. For every record, [updateField(R, 'sub_cause_code', 0)] leaves
    the sub-cause code and text [null], although [0] is a key of the
    sub-cause tables of the causes 6, 9, 10, 11, 12, 14, 15 and 18; no
    update of [sub_cause_code] ever stores the code 0. *)
Theorem sub_cause_zero_is_unset (R : IncidentData) :
  sub_cause_code (updateParsed (Set_sub_cause_code (Some 0)) R) = None /\
  sub_cause_text (updateParsed (Set_sub_cause_code (Some 0)) R) = None /\
  Forall (fun cause => sub_cause_in_table cause 0)
         [6; 9; 10; 11; 12; 14; 15; 18] /\
  forall v : option Z,
    sub_cause_code (updateParsed (Set_sub_cause_code v) R) <> Some 0.
Proof.
  split; [reflexivity|]. split; [reflexivity|]. split.
  - repeat constructor; unfold sub_cause_in_table; simpl;
      eexists; eexists; (split; reflexivity).
  - intros [[|p|p]|]; simpl; try discriminate;
      destruct (cause_info (cause_code R)); simpl; discriminate.
Qed.

Lemma sub_cause_zero_is_unset_witness :
  sub_cause_code (updateParsed (Set_sub_cause_code (Some 0)) adhesion_record)
  <> Some 0.
Proof.
  apply (sub_cause_zero_is_unset adhesion_record).
Defined.

(** ** C1: closure of the invariants under field updates *)

Lemma adhesion_record_invariants : invariants adhesion_record.
Proof.
  split; [|split; [|split]].
  - intros H; discriminate H.
  - intros _; split; reflexivity.
  - intros sub H; discriminate H.
  - exact default_boxes_ok.
Qed.

(** C1, as stated, fails: on a record with cause 6, assigning the
    sub-cause code 99 (no key of the table of cause 6) stores 99, so the
    result breaks invariant 3 although the record satisfied all four. *)
Lemma invariant_closure_counterexample :
  invariants adhesion_record /\
  sub_cause_code (updateParsed (Set_sub_cause_code (Some 99)) adhesion_record)
    = Some 99 /\
  ~ invariants (updateParsed (Set_sub_cause_code (Some 99)) adhesion_record).
Proof.
  split; [exact adhesion_record_invariants|]. split; [reflexivity|].
  intros (_ & _ & H3 & _).
  destruct (H3 99 eq_refl) as (cause & Hc & info & text & Hi & Ht).
  simpl in Hc. injection Hc as <-.
  rewrite cause_info_6 in Hi. injection Hi as <-.
  discriminate Ht.
Qed.

(** C1 (amended). For every record [R] satisfying the four invariants
    and every field update the inspector issues on [R] (the incident
    toggle, the description, and, while [incident = 1], the cause code,
    or the sub-cause code set to [null] or to a key of the sub-cause
    table of the current cause), the record returned by [updateField]
    satisfies the four invariants. *)
Theorem inspector_updates_preserve_invariants
    (R : IncidentData) (u : FieldUpdate) :
  invariants R ->
  inspector_update R u ->
  invariants (updateParsed u R).
Proof.
  intros (H1 & H2 & H3 & H4) Hu.
  assert (Hbox : invariant4 (updateParsed u R)).
  { unfold invariant4. rewrite updateParsed_box_2d.
    destruct Hu; try exact H4.
    destruct (v =? 1)%Z; [|apply Forall_nil_2].
    destruct (length (box_2d R) =? 2)%nat;
      [exact H4 | exact default_boxes_ok]. }
  split; [|split; [|split; [|exact Hbox]]]; clear Hbox.
  - (* invariant 1 *)
    destruct Hu as [v|v|v Hi|Hi|cause sub Hi Hc Ht]; unfold invariant1.
    + unfold updateParsed; simpl. destruct (v =? 1)%Z eqn:Hv; simpl.
      * destruct (length (box_2d R) =? 2)%nat; simpl; lia.
      * intros _. repeat split.
    + exact H1.
    + destruct v as [[|c|c]|]; simpl; case_info; simpl; lia.
    + simpl; lia.
    + destruct sub as [|s|s]; simpl; case_info; simpl; lia.
  - (* invariant 2 *)
    destruct Hu as [v|v|v Hi|Hi|cause sub Hi Hc Ht]; unfold invariant2.
    + unfold updateParsed; simpl. destruct (v =? 1)%Z eqn:Hv; simpl.
      * destruct (length (box_2d R) =? 2)%nat eqn:Hl; simpl;
          intros _; split; try reflexivity.
        by apply Nat.eqb_eq.
      * lia.
    + exact H2.
    + destruct v as [[|c|c]|]; simpl; case_info; simpl; exact H2.
    + simpl. exact H2.
    + destruct sub as [|s|s]; simpl; case_info; simpl; exact H2.
  - (* invariant 3 *)
    destruct Hu as [v|v|v Hi|Hi|cause sub Hi Hc Ht]; unfold invariant3.
    + unfold updateParsed; simpl. destruct (v =? 1)%Z eqn:Hv; simpl.
      * destruct (length (box_2d R) =? 2)%nat; simpl; exact H3.
      * intros sub Hs; discriminate Hs.
    + exact H3.
    + destruct v as [[|c|c]|]; simpl; case_info; simpl;
        intros sub Hs; discriminate Hs.
    + simpl. intros sub Hs; discriminate Hs.
    + assert (Hkeep : forall sub',
                Some sub = Some sub' ->
                exists cause', cause_code R = Some cause' /\
                               sub_cause_in_table cause' sub').
      { intros sub' [= <-]. by exists cause. }
      destruct sub as [|s|s]; simpl; case_info; simpl;
        first [exact Hkeep | intros sub' Hs; discriminate Hs].
Qed.

Lemma inspector_updates_preserve_invariants_witness :
  invariants (updateParsed (Set_sub_cause_code (Some 5)) adhesion_record).
Proof.
  apply (inspector_updates_preserve_invariants adhesion_record).
  - exact adhesion_record_invariants.
  - apply (upd_sub_cause_key adhesion_record 6 5); try reflexivity.
    unfold sub_cause_in_table. rewrite cause_info_6.
    eexists; eexists; split; reflexivity.
Defined.

(** ** Clamping and rounding *)

Lemma clamp_range (x : Q) : (0 <= clamp x)%Q /\ (clamp x <= 1000)%Q.
Proof.
  unfold clamp, Math_max, Math_min.
  destruct (Q.min_spec 1000 x) as [[? Hm]|[? Hm]];
    destruct (Q.max_spec 0 (Qmin 1000 x)) as [[? HM]|[? HM]];
    rewrite HM; lra.
Qed.

Lemma clamp_mono (x y : Q) : (x <= y)%Q -> (clamp x <= clamp y)%Q.
Proof.
  intros Hxy. unfold clamp, Math_max, Math_min.
  destruct (Q.min_spec 1000 x) as [[? Hx]|[? Hx]];
    destruct (Q.min_spec 1000 y) as [[? Hy]|[? Hy]];
    destruct (Q.max_spec 0 (Qmin 1000 x)) as [[? HX]|[? HX]];
    destruct (Q.max_spec 0 (Qmin 1000 y)) as [[? HY]|[? HY]];
    rewrite HX, HY; lra.
Qed.

(** Below the grid the clamp gives 0, inside it the value itself. *)
Lemma clamp_low (x : Q) : (x <= 0)%Q -> (clamp x == 0)%Q.
Proof.
  intros Hx. unfold clamp, Math_max, Math_min.
  destruct (Q.min_spec 1000 x) as [[? Hm]|[? Hm]];
    destruct (Q.max_spec 0 (Qmin 1000 x)) as [[? HM]|[? HM]];
    rewrite HM; lra.
Qed.

Lemma clamp_inside (x : Q) :
  (0 <= x)%Q -> (x <= 1000)%Q -> (clamp x == x)%Q.
Proof.
  intros H0 H1. unfold clamp, Math_max, Math_min.
  destruct (Q.min_spec 1000 x) as [[? Hm]|[? Hm]];
    destruct (Q.max_spec 0 (Qmin 1000 x)) as [[? HM]|[? HM]];
    rewrite HM; lra.
Qed.

Lemma Math_round_mono (x y : Q) :
  (x <= y)%Q -> (Math_round x <= Math_round y)%Q.
Proof.
  intros Hxy. unfold Math_round. rewrite <- Zle_Qle.
  apply Qfloor_resp_le. lra.
Qed.

Lemma Math_round_eq (x y : Q) : (x == y)%Q -> Math_round x = Math_round y.
Proof.
  intros Hxy. unfold Math_round. f_equal. apply Qfloor_comp.
  rewrite Hxy. reflexivity.
Qed.

Lemma Math_round_integer (z : Z) : Math_round (inject_Z z) = inject_Z z.
Proof.
  unfold Math_round. f_equal.
  apply Z.le_antisymm.
  - apply Z.lt_succ_r. rewrite Zlt_Qlt.
    eapply Qle_lt_trans; [apply Qfloor_le|].
    unfold Z.succ. rewrite inject_Z_plus. change (inject_Z 1) with 1%Q. lra.
  - rewrite <- (Qfloor_Z z) at 1. apply Qfloor_resp_le. lra.
Qed.

Lemma clamp_round_unfold (x : Q) : clamp_round x = Math_round (clamp x).
Proof. reflexivity. Qed.

(** [clamp_round] always lands on the integer grid [0..1000]. *)
Lemma clamp_round_coord_ok (x : Q) : coord_ok (clamp_round x).
Proof.
  rewrite clamp_round_unfold. destruct (clamp_range x) as [H0 H1].
  exists (Qfloor (clamp x + (1 # 2))). split; [reflexivity|]. split.
  - change 0%Z with (Qfloor 0). apply Qfloor_resp_le. lra.
  - change 1000%Z with (Qfloor (1000 + (1 # 2))).
    apply Qfloor_resp_le. lra.
Qed.

Lemma clamp_round_mono (x y : Q) :
  (x <= y)%Q -> (clamp_round x <= clamp_round y)%Q.
Proof.
  intros Hxy. rewrite !clamp_round_unfold.
  by apply Math_round_mono, clamp_mono.
Qed.

Lemma clamp_round_low (x : Q) : (x <= 0)%Q -> clamp_round x = 0%Q.
Proof.
  intros Hx. rewrite clamp_round_unfold.
  rewrite (Math_round_eq _ 0) by (by apply clamp_low). reflexivity.
Qed.

Lemma clamp_round_integer (x : Q) (z : Z) :
  (x == inject_Z z)%Q -> (0 <= z <= 1000)%Z -> clamp_round x = inject_Z z.
Proof.
  intros Hx [H0 H1]. rewrite clamp_round_unfold.
  rewrite <- (Math_round_integer z). apply Math_round_eq.
  rewrite clamp_inside; [exact Hx | | ]; rewrite Hx.
  - change 0%Q with (inject_Z 0). by rewrite <- Zle_Qle.
  - change 1000%Q with (inject_Z 1000). by rewrite <- Zle_Qle.
Qed.

Lemma clamp_round_high (x : Q) : (1000 <= x)%Q -> clamp_round x = 1000%Q.
Proof.
  intros Hx. rewrite clamp_round_unfold.
  rewrite (Math_round_eq _ 1000); [reflexivity|].
  unfold clamp, Math_max, Math_min.
  rewrite Q.min_l by exact Hx. by rewrite Q.max_r.
Qed.

(** Values outside the grid are clamped, half-way values round up. *)
Example clamped_out_of_range :
  clamped (mkBox 3 (-5) (2001 # 2) 1200 (81 # 2)) = mkBox 3 0 1000 1000 41.
Proof. reflexivity. Qed.

(** Rounding an already clamped value changes nothing in its range. *)
Lemma clamp_round_clamp (x : Q) : clamp_round (clamp x) = clamp_round x.
Proof.
  rewrite !clamp_round_unfold. apply Math_round_eq.
  destruct (clamp_range x). by apply clamp_inside.
Qed.

(** ** The box-update operation *)

Lemma item_at_Some (data : list DatasetItem) (sel : Z) (item : DatasetItem) :
  item_at data sel = Some item ->
  (sel =? -1)%Z = false /\ (sel <? 0)%Z = false /\
  data !! Z.to_nat sel = Some item.
Proof.
  unfold item_at. destruct (sel <? 0)%Z eqn:Hneg; [discriminate|].
  intros H. repeat split; [lia | exact H].
Qed.

(** With its guard satisfied, [updateBox] stores [clamped newBox] at the
    keyframe's index. *)
Lemma updateBox_stored (sel : Z) (idx : Keyframe) (newBox : IncidentBox)
    (prev : list DatasetItem) (item : DatasetItem) (R : IncidentData) :
  item_at prev sel = Some item ->
  _parsed item = Some R ->
  incident R = 1 ->
  length (box_2d R) = 2%nat ->
  stored_box sel idx (updateBox sel idx newBox prev) = Some (clamped newBox).
Proof.
  intros Hit HR Hi Hl.
  destruct (item_at_Some _ _ _ Hit) as (Hm & Hneg & Hlk).
  unfold stored_box, updateBox. rewrite Hm, Hit, HR, Hi, Hl. simpl.
  unfold item_at. rewrite Hneg.
  rewrite list_lookup_insert_eq by (by eapply lookup_lt_Some). simpl.
  apply list_lookup_insert_eq. rewrite Hl. destruct idx; simpl; lia.
Qed.

(** ** C9: the guard of the box update *)

(** C9. For every selected record with [incident <> 1], or whose
    [box_2d] does not have exactly two entries, [updateBox(idx, newBox)]
    returns the previous dataset unchanged, whatever box is supplied. *)
Theorem updateBox_guard (sel : Z) (idx : Keyframe) (newBox : IncidentBox)
    (prev : list DatasetItem) (item : DatasetItem) (R : IncidentData) :
  item_at prev sel = Some item ->
  _parsed item = Some R ->
  incident R <> 1 \/ length (box_2d R) <> 2%nat ->
  updateBox sel idx newBox prev = prev.
Proof.
  intros Hit HR Hguard. unfold updateBox. rewrite Hit, HR.
  destruct (sel =? -1)%Z; [reflexivity|].
  destruct (incident R =? 1)%Z eqn:Hi;
    destruct (length (box_2d R) =? 2)%nat eqn:Hl; simpl; try reflexivity.
  apply Z.eqb_eq in Hi. apply Nat.eqb_eq in Hl. by destruct Hguard.
Qed.

Lemma updateBox_guard_witness :
  updateBox 0 EndFrame (mkBox (1 # 2) 10 20 30 40) (single default_record)
  = single default_record.
Proof.
  apply (updateBox_guard 0 EndFrame (mkBox (1 # 2) 10 20 30 40)
           (single default_record)
           (mkItem 7 "clip.mp4" [] (Some default_record) None [])
           default_record).
  - reflexivity.
  - reflexivity.
  - left. simpl. lia.
Defined.

(** ** C3: what the box update stores *)

(** C3. The claim holds for the coordinates but the code breaks it for
    the time: the stored [t] is not kept inside [[0,1]].  Typing 100
    seconds into the time input of a clip of 10 seconds calls
    [updateBox] with [t = 100 / 10], and that value is stored, above 1,
    although the box type is documented as carrying a time normalized
    to 0-1. *)
Theorem updateBox_time_counterexample :
  stored_box 0 StartFrame
    (timeInput_onChange 0 StartFrame 10 100 (single corner_record))
  = Some (mkBox (100 / 10) 0 0 100 100) /\
  ~ time_ok (box_t (mkBox (100 / 10) 0 0 100 100)).
Proof.
  split; [reflexivity|].
  intros [_ Ht]. simpl in Ht. revert Ht. vm_compute. intros H; apply H.
  reflexivity.
Qed.

(** [Math.round] moves a value by at most one half. *)
Lemma Math_round_near (x : Q) :
  (x - (1 # 2) <= Math_round x)%Q /\ (Math_round x <= x + (1 # 2))%Q.
Proof.
  unfold Math_round. set (n := Qfloor (x + (1 # 2))).
  pose proof (Qfloor_le (x + (1 # 2))) as Hle.
  pose proof (Qlt_floor (x + (1 # 2))) as Hlt.
  fold n in Hle, Hlt. rewrite inject_Z_plus in Hlt.
  change (inject_Z 1) with 1%Q in Hlt. split; lra.
Qed.

(** X27. The coordinates a box update stores: each of the four stored
    coordinates is an integer of [0..1000] at a distance of at most 1/2
    from the supplied value clamped to [[0,1000]]; a supplied value of 0
    or less is stored as 0 and one of 1000 or more as 1000.  No value is
    rejected. *)
Theorem updateBox_stores_grid_coordinates (sel : Z) (idx : Keyframe)
    (newBox : IncidentBox) (prev : list DatasetItem) (item : DatasetItem)
    (R : IncidentData) :
  item_at prev sel = Some item ->
  _parsed item = Some R ->
  incident R = 1 ->
  length (box_2d R) = 2%nat ->
  stored_box sel idx (updateBox sel idx newBox prev)
    = Some (clamped newBox) /\
  forall c : Coord,
    let x := box_coord c newBox in
    let s := box_coord c (clamped newBox) in
    coord_ok s /\
    (clamp x - (1 # 2) <= s)%Q /\ (s <= clamp x + (1 # 2))%Q /\
    ((x <= 0)%Q -> s = 0%Q) /\
    ((1000 <= x)%Q -> s = 1000%Q).
Proof.
  intros Hit HR Hi Hl. split; [by eapply updateBox_stored|].
  intros c x s.
  assert (Hs : s = clamp_round x) by (subst s x; by destruct c).
  rewrite Hs. split; [apply clamp_round_coord_ok|].
  rewrite clamp_round_unfold.
  destruct (Math_round_near (clamp x)) as [Hlo Hhi].
  split; [exact Hlo|]. split; [exact Hhi|].
  rewrite <- clamp_round_unfold.
  split; [apply clamp_round_low | apply clamp_round_high].
Qed.

Lemma updateBox_stores_grid_coordinates_witness :
  stored_box 0 StartFrame
    (updateBox 0 StartFrame (mkBox (1 # 2) (-5) (2001 # 2) 1200 40)
       (single corner_record))
  = Some (clamped (mkBox (1 # 2) (-5) (2001 # 2) 1200 40)).
Proof.
  apply (updateBox_stores_grid_coordinates 0 StartFrame
           (mkBox (1 # 2) (-5) (2001 # 2) 1200 40)
           (single corner_record)
           (mkItem 7 "clip.mp4" [] (Some corner_record) None [])
           corner_record); reflexivity.
Defined.

(** ** C4: ordering of the stored coordinates *)

Lemma Qmin_le_Qmax (a b : Q) : (Qmin a b <= Qmax a b)%Q.
Proof.
  eapply Qle_trans; [apply Q.le_min_l | apply Q.le_max_l].
Qed.

Lemma stored_ordered (a b : Q) :
  (clamp_round (clamp (Math_min a b)) <=
   clamp_round (clamp (Math_max a b)))%Q.
Proof.
  apply clamp_round_mono, clamp_mono, Qmin_le_Qmax.
Qed.

(** Every box a drag (move, resize or draw) hands to [updateBox] is
    stored with [yMin <= yMax] and [xMin <= xMax]: an inverted candidate
    is reordered by the [Math.min] / [Math.max] pair of [handleMove]. *)
Lemma handleMove_ordered (dragState : DragState) (ev : MouseEvent)
    (box : IncidentBox) :
  handleMove dragState ev = Some box -> box_ordered (clamped box).
Proof.
  unfold handleMove.
  destruct (Qeq_bool (width (rect dragState)) 0
            || Qeq_bool (height (rect dragState)) 0)%bool; [discriminate|].
  destruct (mode dragState);
    try (intros [= <-]; split; simpl; apply stored_ordered).
  destruct (travel_below _ _ _); [discriminate|].
  intros [= <-]; split; simpl; apply stored_ordered.
Qed.

(** At the level of the dataset: with the guard of [updateBox]
    satisfied, a pointer move that reaches [onUpdate] stores an ordered
    box. *)
Lemma pointerMove_stored_ordered (sel : Z) (k : Keyframe)
    (dragState : DragState) (ev : MouseEvent) (box : IncidentBox)
    (prev : list DatasetItem) (item : DatasetItem) (R : IncidentData) :
  item_at prev sel = Some item ->
  _parsed item = Some R ->
  incident R = 1 ->
  length (box_2d R) = 2%nat ->
  handleMove dragState ev = Some box ->
  stored_box sel k (pointerMove sel k dragState ev prev)
    = Some (clamped box) /\
  box_ordered (clamped box).
Proof.
  intros Hit HR Hi Hl Hmove. split.
  - unfold pointerMove. rewrite Hmove. by eapply updateBox_stored.
  - by eapply handleMove_ordered.
Qed.

(** C4 fails on the direct coordinate edits: with the start box
    [[0, 90, 0, 100, 100]], the +20 button of the Y-Min control passes
    [90 + 20] to [updateBox], which stores the box with [yMin = 110]
    above [yMax = 100]; nothing on this path reorders the pair. *)
Theorem coord_edit_stores_inverted_box :
  stored_box 0 StartFrame
    (coordControl_onChange 0 StartFrame Y_Min (90 + 20) (single thin_record))
  = Some (mkBox 0 110 0 100 100) /\
  ~ box_ordered (mkBox 0 110 0 100 100).
Proof.
  split; [reflexivity|].
  intros [Hy _]. simpl in Hy. revert Hy. vm_compute. intros H; apply H.
  reflexivity.
Qed.

(** ** C6: the draw gesture *)

Lemma Qeq_bool_false (x y : Q) : ~ (x == y)%Q -> Qeq_bool x y = false.
Proof.
  intros Hne. destruct (Qeq_bool x y) eqn:E; [|reflexivity].
  apply Qeq_bool_iff in E. contradiction.
Qed.

Lemma travel_below_true (d dx dy : Q) :
  (dx * dx + dy * dy < d * d)%Q -> travel_below d dx dy = true.
Proof.
  intros Hlt. unfold travel_below.
  destruct (Qle_bool (d * d) (dx * dx + dy * dy)) eqn:E; [|reflexivity].
  apply Qle_bool_iff in E. lra.
Qed.

Lemma travel_below_false (d dx dy : Q) :
  (d * d <= dx * dx + dy * dy)%Q -> travel_below d dx dy = false.
Proof.
  intros Hle. unfold travel_below.
  apply Qle_bool_iff in Hle. by rewrite Hle.
Qed.

(** C6, as stated, fails at the threshold: a pointer travel of exactly
    15 pixels (9 right, 12 down) does not exceed 15, yet the gesture is
    not ignored and the stored box changes. *)
Lemma draw_threshold_counterexample :
  ((9 - 0) * (9 - 0) + (12 - 0) * (12 - 0) == 15 * 15)%Q /\
  stored_box 0 StartFrame (single corner_record)
    = Some (mkBox (1 # 10) 0 0 100 100) /\
  stored_box 0 StartFrame
    (pointerMove 0 StartFrame
       (mkDrag Mode.draw 0 0 (mkBox (1 # 10) 0 0 100 100)
          (mkRect 0 0 800 600))
       (mkMouse 9 12) (single corner_record))
    = Some (mkBox (1 # 10) 0 0 20 11).
Proof. repeat split. Qed.

(** C6 (amended). In draw mode the box is computed directly from the
    rectangle spanning the drag origin and the current pointer position:
    it does not depend on the coordinates of the box the drag started
    from, and each stored coordinate is the grid integer next to the
    corresponding side of that rectangle, normalized and clamped.  The
    gesture is ignored while the pointer travel is below 15 pixels (a
    travel of exactly 15 pixels already draws), and the time of the
    start box is carried through unchanged.  In a container of
    800 x 600 pixels a drag from (100,100) to (500,400) stores the box
    [(t, 167, 125, 667, 625)]. *)
Theorem draw_gesture_geometry (sx sy : Q) (b : IncidentBox) (r : DOMRect)
    (ev : MouseEvent) :
  let dragState := mkDrag Mode.draw sx sy b r in
  let dx := (clientX ev - sx)%Q in
  let dy := (clientY ev - sy)%Q in
  let x0 := normalize (sx - left r) (width r) in
  let y0 := normalize (sy - top r) (height r) in
  let x1 := normalize (clientX ev - left r) (width r) in
  let y1 := normalize (clientY ev - top r) (height r) in
  ((dx * dx + dy * dy < 15 * 15)%Q -> handleMove dragState ev = None) /\
  ((15 * 15 <= dx * dx + dy * dy)%Q ->
   ~ (width r == 0)%Q -> ~ (height r == 0)%Q ->
   exists box : IncidentBox,
     handleMove dragState ev = Some box /\
     box_t (clamped box) = box_t b /\
     stored_near (ymin (clamped box)) (clamp (Math_min y0 y1)) /\
     stored_near (xmin (clamped box)) (clamp (Math_min x0 x1)) /\
     stored_near (ymax (clamped box)) (clamp (Math_max y0 y1)) /\
     stored_near (xmax (clamped box)) (clamp (Math_max x0 x1)) /\
     box_ordered (clamped box)) /\
  (forall b' : IncidentBox,
     box_t b' = box_t b ->
     handleMove (mkDrag Mode.draw sx sy b' r) ev = handleMove dragState ev) /\
  clamped <$> handleMove
                (mkDrag Mode.draw 100 100 b (mkRect 0 0 800 600))
                (mkMouse 500 400)
  = Some (mkBox (box_t b) 167 125 667 625).
Proof.
  assert (Hnear : forall m, stored_near (clamp_round (clamp m)) (clamp m)).
  { intros m. split; [apply clamp_round_coord_ok|].
    rewrite clamp_round_clamp, clamp_round_unfold.
    destruct (Math_round_near (clamp m)). split; lra. }
  cbv zeta. split; [|split; [|split]].
  - intros Hlt. unfold handleMove; simpl.
    rewrite (travel_below_true _ _ _ Hlt).
    by destruct (Qeq_bool (width r) 0 || Qeq_bool (height r) 0)%bool.
  - intros Hge Hw Hh.
    destruct (handleMove (mkDrag Mode.draw sx sy b r) ev) as [box|] eqn:Hm.
    + exists box. split; [reflexivity|].
      pose proof (handleMove_ordered _ _ _ Hm) as Hord.
      revert Hm. unfold handleMove; simpl.
      rewrite (Qeq_bool_false _ _ Hw), (Qeq_bool_false _ _ Hh).
      rewrite (travel_below_false _ _ _ Hge). simpl.
      intros [= <-]. split; [reflexivity|].
      unfold clamped; cbn [ymin xmin ymax xmax].
      do 4 (split; [apply Hnear|]). exact Hord.
    + exfalso. revert Hm. unfold handleMove; simpl.
      rewrite (Qeq_bool_false _ _ Hw), (Qeq_bool_false _ _ Hh).
      rewrite (travel_below_false _ _ _ Hge). discriminate.
  - intros b' Hb'. unfold handleMove; simpl. by rewrite Hb'.
  - reflexivity.
Qed.

Lemma draw_gesture_geometry_witness :
  exists box : IncidentBox,
    handleMove (mkDrag Mode.draw 20 30 (mkBox (1 # 4) 1 2 3 4)
                  (mkRect 10 10 200 100))
               (mkMouse 60 20) = Some box /\
    box_t (clamped box) = (1 # 4)%Q /\
    stored_near (ymin (clamped box))
      (clamp (Math_min (normalize (30 - 10) 100)
                       (normalize (20 - 10) 100))) /\
    stored_near (xmin (clamped box))
      (clamp (Math_min (normalize (20 - 10) 200)
                       (normalize (60 - 10) 200))) /\
    stored_near (ymax (clamped box))
      (clamp (Math_max (normalize (30 - 10) 100)
                       (normalize (20 - 10) 100))) /\
    stored_near (xmax (clamped box))
      (clamp (Math_max (normalize (20 - 10) 200)
                       (normalize (60 - 10) 200))) /\
    box_ordered (clamped box).
Proof.
  apply (draw_gesture_geometry 20 30 (mkBox (1 # 4) 1 2 3 4)
           (mkRect 10 10 200 100) (mkMouse 60 20)).
  - vm_compute. discriminate.
  - vm_compute. discriminate.
  - vm_compute. discriminate.
Defined.

(** ** C7: a move far beyond the left edge *)

(** C7, as stated, fails: moving the box [[0.1, 0, 0, 100, 100]] by
    2000 pixels to the left in a container of 800 x 600 pixels stores
    [[0.1, 0, 0, 100, 0]]: both [xMin] and [xMax] are clamped to 0, so the
    box is not unchanged. *)
Lemma move_clamp_counterexample :
  stored_box 0 StartFrame
    (pointerMove 0 StartFrame
       (mkDrag Mode.move 2000 300 (mkBox (1 # 10) 0 0 100 100)
          (mkRect 0 0 800 600))
       (mkMouse 0 300) (single corner_record))
    = Some (mkBox (1 # 10) 0 0 100 0) /\
  mkBox (1 # 10) 0 0 100 0 <> mkBox (1 # 10) 0 0 100 100.
Proof. split; [reflexivity | discriminate]. Qed.

Lemma no_vertical_travel (sy h : Q) : ((sy - sy) / h * 1000 == 0)%Q.
Proof. unfold Qdiv. ring. Qed.

(** C7 (amended). Starting from the box [[0.1, 0, 0, 100, 100]], a
    move-mode drag without vertical travel whose normalized horizontal
    delta is [-100] or less (such as 2000 pixels to the left in a
    container 800 pixels wide) produces [[0.1, 0, 0, 100, 0]]: the
    vertical coordinates and the time are unchanged, [xMin] stays at 0
    without negative drift, and [xMax] is clamped to 0 as well. *)
Theorem move_clamp_scenario (sx sy cx : Q) (r : DOMRect) :
  ~ (width r == 0)%Q ->
  ~ (height r == 0)%Q ->
  ((cx - sx) / width r * 1000 <= -100)%Q ->
  clamped <$> handleMove
                (mkDrag Mode.move sx sy (mkBox (1 # 10) 0 0 100 100) r)
                (mkMouse cx sy)
  = Some (mkBox (1 # 10) 0 0 100 0).
Proof.
  intros Hw Hh Hdx. unfold handleMove; simpl.
  rewrite (Qeq_bool_false _ _ Hw), (Qeq_bool_false _ _ Hh). simpl.
  unfold clamped; simpl. rewrite !clamp_round_clamp.
  pose proof (no_vertical_travel sy (height r)) as Hdy.
  set (dx := ((cx - sx) / width r * 1000)%Q) in *.
  set (dy := ((sy - sy) / height r * 1000)%Q) in *.
  unfold Math_min, Math_max.
  assert (Hymin : clamp_round (Qmin (0 + dy) (100 + dy)) = 0%Q).
  { apply (clamp_round_integer _ 0); [|lia].
    rewrite Q.min_l by lra. rewrite Hdy. reflexivity. }
  assert (Hymax : clamp_round (Qmax (0 + dy) (100 + dy)) = 100%Q).
  { apply (clamp_round_integer _ 100); [|lia].
    rewrite Q.max_r by lra. rewrite Hdy. reflexivity. }
  assert (Hxmin : clamp_round (Qmin (0 + dx) (100 + dx)) = 0%Q).
  { apply clamp_round_low. rewrite Q.min_l by lra. lra. }
  assert (Hxmax : clamp_round (Qmax (0 + dx) (100 + dx)) = 0%Q).
  { apply clamp_round_low. rewrite Q.max_r by lra. lra. }
  by rewrite Hymin, Hymax, Hxmin, Hxmax.
Qed.

Lemma move_clamp_scenario_witness :
  clamped <$> handleMove
                (mkDrag Mode.move 2000 300 (mkBox (1 # 10) 0 0 100 100)
                   (mkRect 0 0 800 600))
                (mkMouse 0 300)
  = Some (mkBox (1 # 10) 0 0 100 0).
Proof.
  apply (move_clamp_scenario 2000 300 0 (mkRect 0 0 800 600)).
  - vm_compute. discriminate.
  - vm_compute. discriminate.
  - vm_compute. discriminate.
Defined.

(** ** C5: export, re-import, export *)

(** The cleaned record is a fixed point of the cleaning. *)
Lemma cleanParsed_idempotent (p : option IncidentData) :
  cleanParsed (Some (cleanParsed p)) = cleanParsed p.
Proof.
  destruct p as [p|]; [|reflexivity].
  unfold cleanParsed; simpl.
  destruct (incident p =? 1)%Z; [|reflexivity].
  f_equal.
  - by destruct (cause_code p) as [[|c|c]|].
  - by destruct (sub_cause_code p) as [[|c|c]|].
  - by destruct (cause_text p) as [[|a s]|].
  - by destruct (sub_cause_text p) as [[|a s]|].
Qed.

Section FindIndex.

Context {A : Type} (f : A -> bool).

Lemma find_findIndex (l : list A) :
  List.find f l = findIndex f l ≫= (l !!.).
Proof.
  induction l as [|x l IH]; simpl; [reflexivity|].
  destruct (f x); [reflexivity|].
  rewrite IH. by destruct (findIndex f l).
Qed.

Lemma findIndex_Some (l : list A) (i : nat) :
  findIndex f l = Some i -> exists x, l !! i = Some x /\ f x = true.
Proof.
  revert i. induction l as [|x l IH]; intros i; simpl; [discriminate|].
  destruct (f x) eqn:Hx.
  - intros [= <-]. by exists x.
  - destruct (findIndex f l) as [j|]; [|discriminate].
    intros [= <-]. exact (IH j eq_refl).
Qed.

Lemma findIndex_alter (g : A -> A) (l : list A) (i : nat) :
  (forall x, f (g x) = f x) ->
  findIndex f (alter g i l) = findIndex f l.
Proof.
  intros Hg. revert i. induction l as [|x l IH]; intros [|i]; simpl;
    try reflexivity.
  - by rewrite Hg.
  - destruct (f x); [reflexivity|]. f_equal. apply IH.
Qed.

Lemma findIndex_app_last (l : list A) (x : A) :
  findIndex f l = None -> f x = true ->
  findIndex f (l ++ [x]) = Some (length l).
Proof.
  intros Hl Hx. induction l as [|y l IH]; simpl in *.
  - by rewrite Hx.
  - destruct (f y); [discriminate|].
    destruct (findIndex f l); [discriminate|]. by rewrite IH.
Qed.

End FindIndex.

Section ExportFacts.

Variable prompt : string.

(** After an export the first assistant message carries the payload. *)
Lemma export_conversations_find (j : Payload) (convs : list Message) :
  exists m, List.find is_assistant (export_conversations prompt j convs)
            = Some m /\ value m = j.
Proof.
  destruct convs as [|c convs]; [by eexists|].
  unfold export_conversations.
  destruct (findIndex is_assistant (c :: convs)) as [i|] eqn:Hi.
  - rewrite find_findIndex, findIndex_alter, Hi by done. simpl.
    destruct (findIndex_Some _ _ _ Hi) as (x & Hx & _).
    rewrite list_lookup_alter_eq, Hx. by eexists.
  - rewrite find_findIndex,
      (findIndex_app_last _ _ (mkMessage "assistant" j) Hi) by done.
    simpl. rewrite lookup_app_r by done.
    replace (_ - _)%nat with 0%nat by (simpl; lia). by eexists.
Qed.

(** Exporting the same payload twice gives the same conversation. *)
Lemma export_conversations_idempotent (j : Payload)
    (convs : list Message) :
  export_conversations prompt j (export_conversations prompt j convs)
  = export_conversations prompt j convs.
Proof.
  destruct convs as [|c convs]; [reflexivity|].
  unfold export_conversations at 2.
  destruct (findIndex is_assistant (c :: convs)) as [i|] eqn:Hi.
  - assert (Hne : alter (fun c0 => mkMessage (from c0) j) i (c :: convs)
                  <> []).
    { intros H. apply (f_equal length) in H.
      rewrite length_alter in H. discriminate H. }
    unfold export_conversations.
    destruct (alter _ i (c :: convs)) as [|c' convs'] eqn:Ha; [done|].
    rewrite <- Ha, findIndex_alter, Hi by done.
    rewrite list_alter_alter_eq. by apply list_alter_ext.
  - unfold export_conversations.
    rewrite (findIndex_app_last _ _ (mkMessage "assistant" j) Hi) by done.
    change ((c :: convs) ++ [mkMessage "assistant" j])
      with (c :: (convs ++ [mkMessage "assistant" j])).
    cbv iota beta.
    change (c :: (convs ++ [mkMessage "assistant" j]))
      with ((c :: convs) ++ [mkMessage "assistant" j]).
    rewrite alter_app_r_alt by done. by rewrite Hi, Nat.sub_diag.
Qed.

(** Re-importing an exported item recovers the cleaned record. *)
Lemma processItem_toStorageForm (item : DatasetItem) :
  processItem (toStorageForm prompt item) =
  set_parsed (Some (cleanParsed (_parsed item)))
    (toStorageForm prompt item).
Proof.
  unfold processItem.
  destruct (export_conversations_find
              (Json (cleanParsed (_parsed item))) (conversations item))
    as (m & Hm & Hv).
  simpl. rewrite Hm, Hv. reflexivity.
Qed.

Lemma toStorageForm_reimport (item : DatasetItem) :
  toStorageForm prompt (processItem (toStorageForm prompt item))
  = toStorageForm prompt item.
Proof.
  rewrite processItem_toStorageForm. unfold toStorageForm; simpl.
  rewrite cleanParsed_idempotent, export_conversations_idempotent.
  reflexivity.
Qed.

End ExportFacts.

(** C5. Export is idempotent: exporting a dataset, re-importing the
    exported items and exporting again gives the items of the first
    export, for every dataset; and the cleaned record written by the
    export is a fixed point of the cleaning. *)
Theorem export_idempotent (prompt : string) (jsonData : list DatasetItem) :
  downloadJson prompt (processJsonFile (downloadJson prompt jsonData))
  = downloadJson prompt jsonData
  /\ forall R : IncidentData,
       cleanParsed (Some (cleanParsed (Some R))) = cleanParsed (Some R).
Proof.
  split; [|intros R; apply cleanParsed_idempotent].
  unfold downloadJson, processJsonFile.
  induction jsonData as [|item data IH]; [reflexivity|].
  simpl. rewrite toStorageForm_reimport. f_equal. exact IH.
Qed.

(** * Further properties of the record derivation *)

(** X1. A field update is idempotent: issuing the same update a second
    time changes nothing any more. *)
Theorem updateParsed_idempotent (u : FieldUpdate) (R : IncidentData) :
  updateParsed u (updateParsed u R) = updateParsed u R.
Proof.
  destruct u as [v|v|v|v|v|v|v|v]; try reflexivity.
  - unfold updateParsed; simpl. destruct (v =? 1)%Z eqn:Hv; simpl.
    + destruct (length (box_2d R) =? 2)%nat eqn:Hl; simpl;
        rewrite ?Hl; reflexivity.
    + reflexivity.
  - destruct v as [[|c|c]|]; simpl; case_info; reflexivity.
  - destruct v as [[|s|s]|]; simpl; try reflexivity;
      destruct (cause_info (cause_code R)) eqn:E; simpl; by rewrite ?E.
Qed.

(** X2. Switching the incident on and off again leaves the all-clear
    record with the description kept; switching it off and on again does
    not bring the former codes, texts and boxes back: the record has no
    codes and the two default boxes. *)
Theorem incident_toggle_round_trip (R : IncidentData) :
  updateParsed (Set_incident 0) (updateParsed (Set_incident 1) R)
    = mkIncidentData 0 none None None None None [] (description R)
  /\ updateParsed (Set_incident 1) (updateParsed (Set_incident 0) R)
    = mkIncidentData 1 DENM None None None None default_boxes
        (description R).
Proof.
  split; [|reflexivity].
  unfold updateParsed; simpl.
  destruct (length (box_2d R) =? 2)%nat; reflexivity.
Qed.

(** X3. The derived texts stay consistent with the codes: if
    [cause_text] and [sub_cause_text] are the table's texts for the
    stored codes, they still are after an update of the incident flag,
    the cause code, the sub-cause code or the description, whatever the
    new value (known or unknown to the table). *)
Theorem updateParsed_texts_consistent (u : FieldUpdate) (R : IncidentData) :
  derives_texts u ->
  texts_consistent R ->
  texts_consistent (updateParsed u R).
Proof.
  intros Hu [Hc Hs]. unfold texts_consistent.
  destruct u as [v|v|v|v|v|v|v|v]; try contradiction; clear Hu.
  - unfold updateParsed; simpl. destruct (v =? 1)%Z; simpl.
    + destruct (length (box_2d R) =? 2)%nat; simpl; by split.
    + by split.
  - destruct v as [[|c|c]|]; simpl; try (by split).
    destruct (cause_info (Some (Z.pos c))) eqn:E; simpl; rewrite E;
      by split.
  - assert (Hnone : cause_info (cause_code R) = None ->
                    sub_cause_text R = None).
    { intros E. rewrite Hs, E. by destruct (sub_cause_code R). }
    destruct v as [[|s|s]|]; simpl; try (by split);
      destruct (cause_info (cause_code R)) eqn:E; simpl; rewrite E;
      simpl; split; auto.
  - by split.
Qed.

Lemma updateParsed_texts_consistent_witness :
  texts_consistent
    (updateParsed (Set_sub_cause_code (Some 5)) adhesion_record).
Proof.
  apply (updateParsed_texts_consistent (Set_sub_cause_code (Some 5))
           adhesion_record).
  - exact I.
  - split; reflexivity.
Defined.

(** * Further properties of the export *)

Lemma number_or_null_fixed (c : option Z) :
  number_or_null c = c <-> c <> Some 0.
Proof. destruct c as [[|k|k]|]; simpl; split; congruence. Qed.

Lemma string_or_null_fixed (t : option string) :
  string_or_null t = t <-> t <> Some "".
Proof. destruct t as [[|a s]|]; simpl; split; congruence. Qed.

Lemma prop_lookup_elem_of {A : Type} (key : string)
    (obj : list (string * A)) (v : A) :
  prop_lookup key obj = Some v -> (key, v) ∈ obj.
Proof.
  induction obj as [|[k w] obj IH]; simpl; [discriminate|].
  destruct (String.eqb k key) eqn:E.
  - apply String.eqb_eq in E as ->. intros [= ->]. left.
  - intros H. right. by apply IH.
Qed.

(** No cause of the table has an empty name. *)
Lemma cause_info_name (code : option Z) (info : CauseInfo) :
  cause_info code = Some info -> name info <> "".
Proof.
  destruct code as [c|]; [|discriminate]. unfold cause_info. intros H.
  apply prop_lookup_elem_of in H.
  assert (Hall : Forall (fun kv => name kv.2 <> "") causeCodes)
    by (unfold causeCodes; repeat (apply Forall_cons; split;
                                    [discriminate|]); apply Forall_nil_2).
  rewrite Forall_forall in Hall. exact (Hall _ H).
Qed.

Lemma cleanParsed_fixed_iff (R : IncidentData) :
  cleanParsed (Some R) = R <-> storage_normal R.
Proof.
  destruct R as [i m c s ct st b d].
  unfold cleanParsed, storage_normal; simpl.
  destruct (i =? 1)%Z eqn:Hi.
  - apply Z.eqb_eq in Hi. split.
    + intros [= Hm Hc Hs Hct Hst]. split; [|intros Hne; contradiction].
      intros _. rewrite number_or_null_fixed in Hc, Hs.
      rewrite string_or_null_fixed in Hct, Hst. by repeat split.
    + intros [(Hm & Hc & Hs & Hct & Hst) _]; [exact Hi|].
      rewrite <- number_or_null_fixed in Hc, Hs.
      rewrite <- string_or_null_fixed in Hct, Hst.
      by rewrite Hm, Hc, Hs, Hct, Hst.
  - apply Z.eqb_neq in Hi. split.
    + intros [= Hm Hc Hs Hct Hst Hb]. split; [intros H1; contradiction|].
      intros _. by repeat split.
    + intros [_ (Hm & Hc & Hs & Hct & Hst & Hb)]; [exact Hi|].
      by rewrite Hm, Hc, Hs, Hct, Hst, Hb.
Qed.

(** X4. The records on which the export's cleaning changes nothing are
    exactly the storage-normal ones: with [incident = 1] the message
    type is [DENM] and no code is 0 and no text empty; otherwise the
    message type is [none], codes and texts are [null] and there is no
    box. *)
Theorem cleanParsed_fixed_point (R : IncidentData) :
  cleanParsed (Some R) = R <-> storage_normal R.
Proof. exact (cleanParsed_fixed_iff R). Qed.

(** X5. Whatever the working record holds (or when there is none), the
    record the export writes is storage-normal: in particular a record
    without incident is written with message type [none], without
    codes, texts and boxes, and the message type is [DENM] exactly when
    [incident = 1]. *)
Theorem cleanParsed_storage_normal (p : option IncidentData) :
  storage_normal (cleanParsed p) /\
  (message_type (cleanParsed p) = DENM <-> incident (cleanParsed p) = 1).
Proof.
  assert (Hn : forall c, number_or_null c <> Some 0)
    by (intros [[|k|k]|]; simpl; congruence).
  assert (Hs : forall t, string_or_null t <> Some "")
    by (intros [[|a s]|]; simpl; congruence).
  destruct p as [R|]; unfold cleanParsed, storage_normal; simpl.
  - destruct (incident R =? 1)%Z eqn:Hi.
    + apply Z.eqb_eq in Hi. repeat split; auto; contradiction.
    + apply Z.eqb_neq in Hi. repeat split; auto; try contradiction;
        discriminate.
  - repeat split; auto; discriminate.
Qed.

(** X6. The inspector keeps a record storage-normal: setting the
    incident flag, the description or, on a record with [incident = 1],
    the cause code or a sub-cause code of the current cause's table
    leads from a storage-normal record to a storage-normal one. *)
Theorem inspector_updates_storage_normal
    (R : IncidentData) (u : FieldUpdate) :
  storage_normal R ->
  inspector_update R u ->
  storage_normal (updateParsed u R).
Proof.
  intros [Hon Hoff] Hu.
  assert (Hs : forall t, string_or_null t <> Some "")
    by (intros [[|a s]|]; simpl; congruence).
  destruct Hu as [v|v|v Hi|Hi|cause sub Hi Hc Ht]; unfold storage_normal.
  - unfold updateParsed; simpl. destruct (v =? 1)%Z eqn:Hv; simpl.
    + apply Z.eqb_eq in Hv as ->.
      destruct (Z.eq_dec (incident R) 1) as [H1|H1].
      * destruct (Hon H1) as (? & ? & ? & ? & ?).
        destruct (length (box_2d R) =? 2)%nat; simpl;
          (split; [by intros _|intros Hx; contradiction]).
      * destruct (Hoff H1) as (? & Hc & Hsc & Hct & Hst & ?).
        destruct (length (box_2d R) =? 2)%nat; simpl;
          (split; [intros _; rewrite Hc, Hsc, Hct, Hst; by repeat split
                  |intros Hx; contradiction]).
    + apply Z.eqb_neq in Hv. split; [intros Hx; contradiction|].
      intros _. by repeat split.
  - exact (conj Hon Hoff).
  - destruct (Hon Hi) as (Hm & _).
    destruct v as [[|c|c]|]; simpl.
    + split; [by intros _|intros Hx; contradiction].
    + destruct (cause_info (Some (Z.pos c))) eqn:E; simpl;
        (split; [intros _; repeat split; try done|intros Hx; contradiction]).
      intros [= Hname]. by apply (cause_info_name _ _ E).
    + destruct (cause_info (Some (Z.neg c))) eqn:E; simpl;
        (split; [intros _; repeat split; try done|intros Hx; contradiction]).
    + split; [by intros _|intros Hx; contradiction].
  - destruct (Hon Hi) as (Hm & Hcc & _ & Hct & _). simpl.
    split; [by intros _|intros Hx; contradiction].
  - destruct (Hon Hi) as (Hm & Hcc & _ & Hct & Hst).
    destruct sub as [|s|s]; simpl.
    + split; [by intros _|intros Hx; contradiction].
    + destruct (cause_info (cause_code R)); simpl;
        (split; [intros _; repeat split; try done; apply Hs
                |intros Hx; contradiction]).
    + destruct (cause_info (cause_code R)); simpl;
        (split; [intros _; repeat split; try done; apply Hs
                |intros Hx; contradiction]).
Qed.

Lemma inspector_updates_storage_normal_witness :
  storage_normal (updateParsed (Set_cause_code (Some 9)) adhesion_record).
Proof.
  apply (inspector_updates_storage_normal adhesion_record).
  - split; [intros _; repeat split; discriminate
           |intros Hx; exfalso; apply Hx; reflexivity].
  - by apply upd_cause_code.
Defined.

(** X7. Export followed by import gives the working record back: for an
    item whose record is storage-normal, the record parsed from the
    exported item is that record (and for any other record it is the
    cleaned one). *)
Theorem export_import_round_trip (prompt : string) (item : DatasetItem)
    (R : IncidentData) :
  _parsed item = Some R ->
  storage_normal R ->
  _parsed (processItem (toStorageForm prompt item)) = Some R.
Proof.
  intros HR Hn. rewrite processItem_toStorageForm. simpl.
  rewrite HR. f_equal. by apply cleanParsed_fixed_iff.
Qed.

Lemma export_import_round_trip_witness :
  _parsed
    (processItem
       (toStorageForm "Describe the clip."
          (mkItem 7 "clip.mp4" [] (Some adhesion_record) None [])))
  = Some adhesion_record.
Proof.
  apply (export_import_round_trip "Describe the clip."
           (mkItem 7 "clip.mp4" [] (Some adhesion_record) None [])
           adhesion_record).
  - reflexivity.
  - split; [intros _; repeat split; discriminate
           |intros Hx; exfalso; apply Hx; reflexivity].
Defined.

Lemma toLowerCase_app (a b : string) :
  toLowerCase (a ++ b) = (toLowerCase a ++ toLowerCase b)%string.
Proof. induction a as [|c a IH]; simpl; [reflexivity|]. by rewrite IH. Qed.

Lemma string_or_null_idempotent (t : option string) :
  string_or_null (string_or_null t) = string_or_null t.
Proof. by destruct t as [[|a s]|]. Qed.

(** X8. The root [type] label of an exported item is the lower-case
    form of the computed type the inspector displays for the working
    record (and [none] for a record without incident or cause text). *)
Theorem type_label_typeDisplay (p : option IncidentData) :
  type_label (cleanParsed p) = toLowerCase (typeDisplay p).
Proof.
  destruct p as [R|]; [|reflexivity].
  unfold type_label, typeDisplay, cleanParsed; simpl.
  destruct (incident R =? 1)%Z; [|reflexivity].
  rewrite !string_or_null_idempotent.
  destruct (cause_text R) as [[|a ct]|]; simpl; try reflexivity.
  destruct (sub_cause_text R) as [[|b st]|]; simpl; try reflexivity.
  f_equal. rewrite toLowerCase_app. reflexivity.
Qed.

(** * Further properties of the import *)

Lemma default_record_invariants : invariants default_record.
Proof.
  split; [|split; [|split]].
  - intros _. by repeat split.
  - intros H; discriminate H.
  - intros sub H; discriminate H.
  - apply Forall_nil_2.
Qed.

Lemma find_elem_of {A : Type} (f : A -> bool) (l : list A) (x : A) :
  List.find f l = Some x -> x ∈ l /\ f x = true.
Proof.
  induction l as [|y l IH]; simpl; [discriminate|].
  destruct (f y) eqn:E.
  - intros [= <-]. split; [left | exact E].
  - intros H. destruct (IH H). split; [by right | done].
Qed.

(** X9. What the import makes of an item: it leaves the id, the video,
    the conversations and the further keys as they are and sets the
    working record anew.  A record it sets is the one encoded by an
    assistant message of the item, or else the all-clear default
    record, which satisfies the four invariants; an item without an
    assistant message always gets the default.  The import leaves an
    item without a working record only when an assistant message holds
    the JSON text of a falsy value, such as [null]. *)
Theorem processItem_record (item : DatasetItem) :
  (forall R : IncidentData,
     _parsed (processItem item) = Some R ->
     R = default_record \/
     exists m : Message,
       m ∈ conversations item /\ from m = "assistant" /\ value m = Json R)
  /\ (_parsed (processItem item) = None ->
      exists m : Message,
        m ∈ conversations item /\ from m = "assistant" /\
        value m = JsonFalsy)
  /\ (Forall (fun m => from m <> "assistant") (conversations item) ->
      _parsed (processItem item) = Some default_record)
  /\ invariants default_record
  /\ id (processItem item) = id item
  /\ video (processItem item) = video item
  /\ conversations (processItem item) = conversations item
  /\ type (processItem item) = type item
  /\ rest (processItem item) = rest item.
Proof.
  unfold processItem.
  destruct (List.find is_assistant (conversations item)) as [m|] eqn:E.
  - destruct (find_elem_of _ _ _ E) as [Hin Hm].
    apply String.eqb_eq in Hm.
    assert (Hnot : Forall (fun m => from m <> "assistant")
                     (conversations item) -> False).
    { intros Hall. rewrite Forall_forall in Hall. exact (Hall m Hin Hm). }
    destruct (value m) as [s|d|] eqn:Hv; simpl;
      (split; [|split; [|split;
         [|split; [exact default_record_invariants | by repeat split]]]]).
    + intros R [= <-]. by left.
    + discriminate.
    + reflexivity.
    + intros R [= <-]. right. by exists m.
    + discriminate.
    + intros Hall. by destruct (Hnot Hall).
    + discriminate.
    + intros _. by exists m.
    + intros Hall. by destruct (Hnot Hall).
  - simpl.
    split; [|split; [|split;
      [|split; [exact default_record_invariants | by repeat split]]]].
    + intros R [= <-]. by left.
    + discriminate.
    + reflexivity.
Qed.

(** * The video matcher and the generated dataset *)

Lemma string_or_null_Some (t : option string) (s : string) :
  string_or_null t = Some s <-> t = Some s /\ s <> "".
Proof.
  destruct t as [[|a r]|]; simpl; split;
    try (intros [H ?]; try discriminate H); try discriminate.
  - injection H as <-. contradiction.
  - intros [= <-]. by split.
  - by rewrite H.
Qed.

Lemma has_file_true (videoFiles : list (string * string)) (k : string) :
  has_file videoFiles (Some k) = true <->
  exists url, prop_lookup k videoFiles = Some url.
Proof. unfold has_file. rewrite bool_decide_eq_true. reflexivity. Qed.

Lemma basename_from_no_slash (cand s : string) :
  has_slash s = false -> basename_from cand s = cand.
Proof.
  induction s as [|c s IH]; simpl; [reflexivity|].
  destruct (Ascii.eqb c "/"); [discriminate|]. exact IH.
Qed.

Lemma basename_from_path (cand dir fname : string) :
  basename_from cand (dir ++ String "/" fname) = basename_from fname fname.
Proof.
  revert cand. induction dir as [|c dir IH]; intros cand; simpl.
  - reflexivity.
  - destruct (Ascii.eqb c "/"); apply IH.
Qed.

(** The base name of [dir/fname] is [fname]. *)
Lemma basename_path (dir fname : string) :
  has_slash fname = false ->
  basename (dir ++ String "/" fname) = fname.
Proof.
  intros H. unfold basename. rewrite basename_from_path.
  by apply basename_from_no_slash.
Qed.

Lemma videoUrl_exact (videoFiles : list (string * string))
    (item : DatasetItem) (url : string) :
  video item <> "" -> url <> "" ->
  prop_lookup (video item) videoFiles = Some url ->
  videoUrl videoFiles item = Some url.
Proof.
  intros Hv Hu Hget. unfold videoUrl.
  assert (Hhas : has_file videoFiles (Some (video item)) = true)
    by (apply has_file_true; by exists url).
  cbn [List.find]. rewrite Hhas. cbn [mjoin option_join].
  assert (Hm : string_or_null (Some (video item)) = Some (video item))
    by (by apply string_or_null_Some).
  rewrite Hm, Hm, Hget.
  by rewrite (proj2 (string_or_null_Some (Some url) url)).
Qed.

(** X10. The video matcher never makes a URL up, and the full name
    wins: a URL it returns is an entry of the map of video files, and
    when the map has an entry under the item's [video] name (name and
    URL not empty) that entry is the one returned. *)
Theorem videoUrl_sound_and_exact (videoFiles : list (string * string))
    (item : DatasetItem) :
  (forall url, videoUrl videoFiles item = Some url ->
               exists k, prop_lookup k videoFiles = Some url) /\
  (forall url, video item <> "" -> url <> "" ->
               prop_lookup (video item) videoFiles = Some url ->
               videoUrl videoFiles item = Some url).
Proof.
  split; [|intros url; apply videoUrl_exact].
  intros url. unfold videoUrl.
  match goal with
  | |- context [string_or_null ?m] =>
      destruct (string_or_null m) as [k|]; [|discriminate]
  end.
  destruct (string_or_null (prop_lookup k videoFiles)) as [u|] eqn:E.
  - intros [= <-]. apply string_or_null_Some in E as [E _]. by exists k.
  - intros H. by exists (basename k).
Qed.

Lemma videoUrl_sound_and_exact_witness :
  videoUrl [("a.mp4", "blob:1"); ("b.mp4", "blob:2")]
    (mkItem 3 "b.mp4" [] None None [])
  = Some "blob:2".
Proof.
  apply (videoUrl_sound_and_exact
           [("a.mp4", "blob:1"); ("b.mp4", "blob:2")]
           (mkItem 3 "b.mp4" [] None None [])).
  - discriminate.
  - discriminate.
  - reflexivity.
Defined.

(** X11. The video matcher falls back to the base name: an item whose
    [video] is a path [dir/fname] that is no key of the map, and that
    has no [video_filename], gets the URL stored under [fname]. *)
Theorem videoUrl_by_base_name (videoFiles : list (string * string))
    (item : DatasetItem) (dir fname url : string) :
  video item = (dir ++ String "/" fname)%string ->
  has_slash fname = false ->
  prop_lookup (video item) videoFiles = None ->
  prop_lookup "video_filename" (rest item) = None ->
  prop_lookup fname videoFiles = Some url ->
  videoUrl videoFiles item = Some url.
Proof.
  intros Hv Hf Hfull Hvf Hget. unfold videoUrl. rewrite Hvf.
  assert (Hno : has_file videoFiles (Some (video item)) = false).
  { unfold has_file. rewrite Hfull. reflexivity. }
  assert (Hbase : basename (video item) = fname)
    by (rewrite Hv; by apply basename_path).
  assert (Hyes : has_file videoFiles (Some (basename (video item))) = true)
    by (rewrite Hbase; apply has_file_true; by exists url).
  assert (Hne : video item <> "")
    by (rewrite Hv; destruct dir; discriminate).
  cbn [List.find fmap option_fmap option_map]. rewrite Hno, Hyes.
  change (has_file videoFiles None) with false.
  cbn [mjoin option_join].
  change (string_or_null None) with (@None string). cbv iota.
  rewrite (proj2 (string_or_null_Some (Some (video item)) (video item)))
    by done.
  by rewrite Hfull, Hbase.
Qed.

Lemma videoUrl_by_base_name_witness :
  videoUrl [("a.mp4", "blob:1"); ("b.mp4", "blob:2")]
    (mkItem 3 "clips/day1/b.mp4" [] None None [])
  = Some "blob:2".
Proof.
  apply (videoUrl_by_base_name
           [("a.mp4", "blob:1"); ("b.mp4", "blob:2")]
           (mkItem 3 "clips/day1/b.mp4" [] None None [])
           "clips/day1" "b.mp4" "blob:2"); reflexivity.
Defined.

Lemma prop_lookup_NoDup {A : Type} (obj : list (string * A)) (i : nat)
    (k : string) (v : A) :
  NoDup (obj.*1) -> obj !! i = Some (k, v) -> prop_lookup k obj = Some v.
Proof.
  revert i. induction obj as [|[k' v'] obj IH]; intros i Hnd Hi;
    [discriminate|].
  simpl in Hnd. apply NoDup_cons in Hnd as [Hnotin Hnd]. simpl.
  destruct i as [|i]; simpl in Hi.
  - injection Hi as -> ->. by rewrite String.eqb_refl.
  - destruct (String.eqb k' k) eqn:E; [|by eapply IH].
    apply String.eqb_eq in E as ->. exfalso. apply Hnotin.
    apply list_elem_of_fmap. exists (k, v). split; [reflexivity|].
    by eapply list_elem_of_lookup_2.
Qed.

(** X12. [startWorkspace] selects item 0, activates the workspace and
    keeps a loaded dataset as it is.  From an empty dataset it
    generates one item per video file, in the order of the map: the
    item at position [i] has the id [i], the default record, and the
    video matcher resolves it to the URL of the [i]-th file. *)
Theorem startWorkspace_generated (videoFiles : list (string * string)) :
  (forall data, data <> [] ->
                startWorkspace data videoFiles = (data, 0%Z, true)) /\
  (forall (i : nat) (fname url : string),
     NoDup (videoFiles.*1) ->
     videoFiles !! i = Some (fname, url) ->
     fname <> "" -> url <> "" ->
     exists item,
       (startWorkspace [] videoFiles).1.1 !! i = Some item /\
       id item = Z.of_nat i /\
       _parsed item = Some default_record /\
       videoUrl videoFiles item = Some url).
Proof.
  split.
  - intros [|item data] Hne; [contradiction | reflexivity].
  - intros i fname url Hnd Hi Hf Hu.
    exists (generated_item i fname). unfold startWorkspace; simpl.
    assert (Hlen : (0 <? length videoFiles)%nat = true).
    { apply Nat.ltb_lt. apply lookup_lt_Some in Hi. lia. }
    rewrite Hlen. simpl. split; [|split; [reflexivity|split;
                                            [reflexivity|]]].
    + by rewrite list_lookup_imap, list_lookup_fmap, Hi.
    + apply videoUrl_exact; [exact Hf | exact Hu |].
      by eapply prop_lookup_NoDup.
Qed.

Lemma startWorkspace_generated_witness :
  exists item,
    (startWorkspace [] [("a.mp4", "blob:1"); ("b.mp4", "blob:2")]).1.1
      !! 1%nat = Some item /\
    id item = Z.of_nat 1 /\
    _parsed item = Some default_record /\
    videoUrl [("a.mp4", "blob:1"); ("b.mp4", "blob:2")] item
      = Some "blob:2".
Proof.
  apply (proj2 (startWorkspace_generated
                  [("a.mp4", "blob:1"); ("b.mp4", "blob:2")])
           1%nat "b.mp4" "blob:2").
  - apply NoDup_cons. split; [|apply NoDup_singleton].
    intros H. apply list_elem_of_singleton in H. discriminate H.
  - reflexivity.
  - discriminate.
  - discriminate.
Defined.

(** * Further properties of the two updaters *)

Lemma item_at_insert_eq (data : list DatasetItem) (sel : Z)
    (old new : DatasetItem) :
  item_at data sel = Some old ->
  item_at (<[Z.to_nat sel := new]> data) sel = Some new.
Proof.
  intros H. destruct (item_at_Some _ _ _ H) as (_ & Hneg & Hlk).
  unfold item_at. rewrite Hneg.
  apply list_lookup_insert_eq. by eapply lookup_lt_Some.
Qed.

Lemma item_at_insert_ne (data : list DatasetItem) (sel j : Z)
    (new : DatasetItem) :
  j <> sel -> (0 <= sel)%Z ->
  item_at (<[Z.to_nat sel := new]> data) j = item_at data j.
Proof.
  intros Hne Hsel. unfold item_at.
  destruct (j <? 0)%Z eqn:Hj; [reflexivity|].
  apply list_lookup_insert_ne. lia.
Qed.

(** Either nothing happens or the selected item gets the updated
    record. *)
Lemma updateField_cases (sel : Z) (u : FieldUpdate)
    (prev : list DatasetItem) :
  updateField sel u prev = prev \/
  exists item R,
    item_at prev sel = Some item /\ _parsed item = Some R /\
    updateField sel u prev =
      <[Z.to_nat sel := set_parsed (Some (updateParsed u R)) item]> prev.
Proof.
  unfold updateField. destruct (sel =? -1)%Z; [by left|].
  destruct (item_at prev sel) as [item|]; [|by left].
  destruct (_parsed item) as [R|] eqn:HR; [|by left].
  right. by exists item, R.
Qed.

Lemma updateBox_cases (sel : Z) (idx : Keyframe) (newBox : IncidentBox)
    (prev : list DatasetItem) :
  updateBox sel idx newBox prev = prev \/
  exists item R,
    item_at prev sel = Some item /\ _parsed item = Some R /\
    incident R = 1 /\ length (box_2d R) = 2%nat /\
    updateBox sel idx newBox prev =
      <[Z.to_nat sel :=
          set_parsed
            (Some (set_box_2d
                     (<[keyframe_index idx := clamped newBox]> (box_2d R))
                     R))
            item]> prev.
Proof.
  unfold updateBox. destruct (sel =? -1)%Z; [by left|].
  destruct (item_at prev sel) as [item|]; [|by left].
  destruct (_parsed item) as [R|] eqn:HR; [|by left].
  destruct (incident R =? 1)%Z eqn:Hi; [|by left].
  destruct (length (box_2d R) =? 2)%nat eqn:Hl; [|by left].
  right. exists item, R. apply Z.eqb_eq in Hi. apply Nat.eqb_eq in Hl.
  by repeat split.
Qed.

Lemma keyframe_index_inj (k k' : Keyframe) :
  keyframe_index k = keyframe_index k' -> k = k'.
Proof. by destruct k, k'. Qed.

(** X13. A field update touches nothing but the working record of the
    selected item: the dataset keeps its length, every other item is the
    same, and the selected item keeps its id, video, conversations, type
    and further keys. *)
Theorem updateField_frame (sel : Z) (u : FieldUpdate)
    (prev : list DatasetItem) :
  length (updateField sel u prev) = length prev /\
  (forall j, j <> sel ->
     item_at (updateField sel u prev) j = item_at prev j) /\
  (forall item', item_at (updateField sel u prev) sel = Some item' ->
     exists item, item_at prev sel = Some item /\
       id item' = id item /\ video item' = video item /\
       conversations item' = conversations item /\
       type item' = type item /\ rest item' = rest item).
Proof.
  destruct (updateField_cases sel u prev)
    as [->|(item & R & Hit & HR & ->)].
  - repeat split; try done. intros item' H. by exists item'.
  - destruct (item_at_Some _ _ _ Hit) as (_ & Hneg & _).
    split; [apply length_insert|]. split.
    + intros j Hj. apply item_at_insert_ne; [done | lia].
    + intros item' H. rewrite (item_at_insert_eq _ _ _ _ Hit) in H.
      injection H as <-. by exists item.
Qed.

(** X14. A box update touches nothing but the box of its keyframe: the
    dataset keeps its length, every other item is the same, the box of
    the other keyframe is the same, and the selected record keeps all
    its other fields. *)
Theorem updateBox_frame (sel : Z) (idx : Keyframe) (newBox : IncidentBox)
    (prev : list DatasetItem) :
  length (updateBox sel idx newBox prev) = length prev /\
  (forall j, j <> sel ->
     item_at (updateBox sel idx newBox prev) j = item_at prev j) /\
  (forall k, k <> idx ->
     stored_box sel k (updateBox sel idx newBox prev)
     = stored_box sel k prev) /\
  (forall item' R',
     item_at (updateBox sel idx newBox prev) sel = Some item' ->
     _parsed item' = Some R' ->
     exists item R,
       item_at prev sel = Some item /\ _parsed item = Some R /\
       set_parsed None item' = set_parsed None item /\
       set_box_2d [] R' = set_box_2d [] R /\
       length (box_2d R') = length (box_2d R)).
Proof.
  destruct (updateBox_cases sel idx newBox prev)
    as [->|(item & R & Hit & HR & Hi & Hl & ->)].
  - repeat split; try done. intros item' R' H1 H2. by exists item', R'.
  - destruct (item_at_Some _ _ _ Hit) as (_ & Hneg & _).
    split; [apply length_insert|]. split; [|split].
    + intros j Hj. apply item_at_insert_ne; [done | lia].
    + intros k Hk. unfold stored_box.
      rewrite (item_at_insert_eq _ _ _ _ Hit), Hit. simpl. rewrite HR.
      simpl. apply list_lookup_insert_ne.
      intros Heq. apply Hk. symmetry. by apply keyframe_index_inj.
    + intros item' R' H1 H2.
      rewrite (item_at_insert_eq _ _ _ _ Hit) in H1. injection H1 as <-.
      simpl in H2. injection H2 as <-. exists item, R.
      repeat split; try done. simpl. apply length_insert.
Qed.

(** X15. Without a working record nothing is updated: when no item is
    selected, the selection is outside the dataset, or the selected item
    has no record, a field update, a box update and a pointer move all
    return the dataset unchanged. *)
Theorem no_record_no_update (sel : Z) (prev : list DatasetItem) :
  item_at prev sel ≫= _parsed = None ->
  (forall u, updateField sel u prev = prev) /\
  (forall idx newBox, updateBox sel idx newBox prev = prev) /\
  (forall k ds ev, pointerMove sel k ds ev prev = prev).
Proof.
  intros Hnone.
  assert (Hbox : forall idx newBox, updateBox sel idx newBox prev = prev).
  { intros idx newBox.
    destruct (updateBox_cases sel idx newBox prev)
      as [H|(item & R & Hit & HR & _)]; [exact H|].
    rewrite Hit in Hnone. simpl in Hnone. congruence. }
  split; [|split; [exact Hbox|]].
  - intros u. destruct (updateField_cases sel u prev)
      as [H|(item & R & Hit & HR & _)]; [exact H|].
    rewrite Hit in Hnone. simpl in Hnone. congruence.
  - intros k ds ev. unfold pointerMove.
    destruct (handleMove ds ev); [apply Hbox | reflexivity].
Qed.

Lemma no_record_no_update_witness :
  updateField (-1) (Set_incident 1) (single default_record)
  = single default_record.
Proof.
  apply (no_record_no_update (-1) (single default_record)). reflexivity.
Defined.

Lemma clamp_round_idempotent (x : Q) :
  clamp_round (clamp_round x) = clamp_round x.
Proof.
  destruct (clamp_round_coord_ok x) as (z & Hz & Hr).
  rewrite (clamp_round_integer _ z Hz Hr).
  unfold clamp_round, Math_round in *. clear Hr.
  set (m := Qfloor _) in *. f_equal. symmetry.
  by apply inject_Z_injective.
Qed.

Lemma clamped_idempotent (b : IncidentBox) : clamped (clamped b) = clamped b.
Proof.
  unfold clamped; simpl. by rewrite !clamp_round_idempotent.
Qed.

(** X16. The box update is idempotent, and the box it stores is a fixed
    point: submitting the same box again, or the box that was stored,
    gives the same dataset. *)
Theorem updateBox_idempotent (sel : Z) (idx : Keyframe)
    (newBox : IncidentBox) (prev : list DatasetItem) :
  updateBox sel idx newBox (updateBox sel idx newBox prev)
    = updateBox sel idx newBox prev /\
  updateBox sel idx (clamped newBox) (updateBox sel idx newBox prev)
    = updateBox sel idx newBox prev.
Proof.
  assert (Hgen : forall b, clamped b = clamped newBox ->
            updateBox sel idx b (updateBox sel idx newBox prev)
            = updateBox sel idx newBox prev).
  { intros b Hb.
    destruct (updateBox_cases sel idx newBox prev)
      as [Hsame|(item & R & Hit & HR & Hi & Hl & Heq)].
    - rewrite Hsame.
      destruct (updateBox_cases sel idx b prev)
        as [H|(item & R & Hit & HR & Hi & Hl & _)]; [exact H|].
      destruct (updateBox_cases sel idx newBox prev)
        as [_|(item' & R' & _ & _ & _ & _ & Heq')].
      + unfold updateBox in Hsame |- *.
        destruct (item_at_Some _ _ _ Hit) as (Hm & _).
        rewrite Hm, Hit, HR, Hi, Hl in Hsame |- *. simpl in *.
        by rewrite Hb.
      + unfold updateBox in Hsame |- *.
        destruct (item_at_Some _ _ _ Hit) as (Hm & _).
        rewrite Hm, Hit, HR, Hi, Hl in Hsame |- *. simpl in *.
        by rewrite Hb.
    - rewrite Heq. unfold updateBox.
      destruct (item_at_Some _ _ _ Hit) as (Hm & _). rewrite Hm.
      rewrite (item_at_insert_eq _ _ _ _ Hit). simpl.
      rewrite Hi, length_insert, Hl. simpl.
      rewrite list_insert_insert_eq, Hb. f_equal.
      unfold set_parsed, set_box_2d; simpl.
      by rewrite list_insert_insert_eq. }
  split; apply Hgen; [reflexivity | apply clamped_idempotent].
Qed.

(** * The keyframe editor row and the overlay *)

Lemma editor_box_Some (sel : Z) (k : Keyframe) (data : list DatasetItem)
    (b : IncidentBox) :
  editor_box sel k data = Some b ->
  exists item R,
    item_at data sel = Some item /\ _parsed item = Some R /\
    incident R = 1 /\ length (box_2d R) = 2%nat /\
    box_2d R !! keyframe_index k = Some b.
Proof.
  unfold editor_box.
  destruct (item_at data sel) as [item|]; [|discriminate].
  destruct (_parsed item) as [R|] eqn:HR; [|discriminate].
  destruct (incident R =? 1)%Z eqn:Hi; [|discriminate].
  destruct (length (box_2d R) =? 2)%nat eqn:Hl; [|discriminate].
  simpl. intros H. exists item, R.
  apply Z.eqb_eq in Hi. apply Nat.eqb_eq in Hl. by repeat split.
Qed.

Lemma editor_box_stored (sel : Z) (k : Keyframe) (data : list DatasetItem)
    (b : IncidentBox) :
  editor_box sel k data = Some b -> stored_box sel k data = Some b.
Proof.
  intros H. destruct (editor_box_Some _ _ _ _ H)
    as (item & R & Hit & HR & _ & _ & Hb).
  unfold stored_box. rewrite Hit. simpl. rewrite HR. exact Hb.
Qed.

Lemma clamp_round_coord_fixed (x : Q) :
  coord_ok x -> (clamp_round x == x)%Q.
Proof.
  intros (z & Hz & Hr). rewrite (clamp_round_integer x z Hz Hr).
  by rewrite Hz.
Qed.

(** X17. Sync Time writes a time inside [[0,1]] and keeps the box: for
    a playback position between 0 and the duration (also for a duration
    of 0, before the metadata is loaded) the stored time lies in
    [[0,1]], and the coordinates of a box on the grid keep their
    values. *)
Theorem syncTime_stores (sel : Z) (k : Keyframe) (duration currentTime : Q)
    (data : list DatasetItem) (b : IncidentBox) :
  editor_box sel k data = Some b ->
  (0 <= currentTime)%Q ->
  (currentTime <= duration)%Q ->
  coord_ok (ymin b) -> coord_ok (xmin b) ->
  coord_ok (ymax b) -> coord_ok (xmax b) ->
  exists b',
    stored_box sel k (syncTime_onClick sel k duration currentTime data)
      = Some b' /\
    time_ok (box_t b') /\
    (ymin b' == ymin b)%Q /\ (xmin b' == xmin b)%Q /\
    (ymax b' == ymax b)%Q /\ (xmax b' == xmax b)%Q.
Proof.
  intros Hed H0 H1 Hy0 Hx0 Hy1 Hx1.
  destruct (editor_box_Some _ _ _ _ Hed)
    as (item & R & Hit & HR & Hi & Hl & _).
  unfold syncTime_onClick. rewrite Hed.
  eexists. split; [by eapply updateBox_stored|].
  simpl. split; [|by repeat split; apply clamp_round_coord_fixed].
  destruct (Qle_bool duration 0) eqn:Hd.
  - split; [apply Qle_refl | discriminate].
  - assert (Hpos : (0 < duration)%Q).
    { apply Qnot_le_lt. intros Hle. apply Qle_bool_iff in Hle.
      congruence. }
    split.
    + apply Qle_shift_div_l; [exact Hpos|]. lra.
    + apply Qle_shift_div_r; [exact Hpos|]. lra.
Qed.

Lemma syncTime_stores_witness :
  exists b',
    stored_box 0 StartFrame
      (syncTime_onClick 0 StartFrame 12 3 (single corner_record))
      = Some b' /\
    time_ok (box_t b') /\
    (ymin b' == 0)%Q /\ (xmin b' == 0)%Q /\
    (ymax b' == 100)%Q /\ (xmax b' == 100)%Q.
Proof.
  apply (syncTime_stores 0 StartFrame 12 3 (single corner_record)
           (mkBox (1 # 10) 0 0 100 100)).
  - reflexivity.
  - discriminate.
  - discriminate.
  - exists 0%Z. split; [reflexivity | lia].
  - exists 0%Z. split; [reflexivity | lia].
  - exists 100%Z. split; [reflexivity | lia].
  - exists 100%Z. split; [reflexivity | lia].
Defined.

(** X18. When a pointer move updates nothing: [handleMove] returns
    without calling [onUpdate] exactly when the container has no width
    or no height, or when, in draw mode, the pointer is less than 15
    pixels from the drag origin. *)
Theorem handleMove_None_iff (ds : DragState) (ev : MouseEvent) :
  handleMove ds ev = None <->
  (width (rect ds) == 0)%Q \/ (height (rect ds) == 0)%Q \/
  (mode ds = Mode.draw /\
   ((clientX ev - startX ds) * (clientX ev - startX ds)
    + (clientY ev - startY ds) * (clientY ev - startY ds) < 15 * 15)%Q).
Proof.
  unfold handleMove.
  destruct (Qeq_bool (width (rect ds)) 0) eqn:Hw.
  { apply Qeq_bool_iff in Hw. simpl. split; [by left | done]. }
  destruct (Qeq_bool (height (rect ds)) 0) eqn:Hh.
  { apply Qeq_bool_iff in Hh. simpl. split; [by right; left | done]. }
  apply Qeq_bool_neq in Hw. apply Qeq_bool_neq in Hh. simpl.
  destruct (mode ds) eqn:Hm;
    try (split; [discriminate | intros [?|[?|[? _]]]; done]).
  unfold travel_below.
  destruct (Qle_bool (15 * 15) _) eqn:Ht; simpl.
  - apply Qle_bool_iff in Ht. split; [discriminate|].
    intros [?|[?|[_ Hlt]]]; try done.
    exfalso. apply (Qlt_not_le _ _ Hlt). exact Ht.
  - split; [|done]. intros _. right; right. split; [done|].
    apply Qnot_le_lt. intros Hle. apply Qle_bool_iff in Hle. congruence.
Qed.

(** X19. The overlay rectangle of a valid box lies inside the
    container: its top, left, width and height are between 0 and 100
    percent.  A box stored with [yMin] above [yMax] gets a negative
    height. *)
Theorem boxStyle_bounds (b : IncidentBox) :
  (valid_box b ->
   (0 <= style_top (boxStyle b) <= 100)%Q /\
   (0 <= style_left (boxStyle b) <= 100)%Q /\
   (0 <= style_width (boxStyle b) <= 100)%Q /\
   (0 <= style_height (boxStyle b) <= 100)%Q) /\
  ((ymax b < ymin b)%Q -> (style_height (boxStyle b) < 0)%Q).
Proof.
  assert (Hrange : forall x, coord_ok x -> (0 <= x)%Q /\ (x <= 1000)%Q).
  { intros x (z & Hz & Hr). rewrite Hz.
    change 0%Q with (inject_Z 0). change 1000%Q with (inject_Z 1000).
    rewrite <- !Zle_Qle. lia. }
  unfold boxStyle; simpl. split.
  - intros (Hy0 & Hx0 & Hy1 & Hx1 & Hoy & Hox).
    apply Hrange in Hy0, Hx0, Hy1, Hx1.
    unfold Qdiv. change (/ 10)%Q with (1 # 10). lra.
  - intros Hinv. unfold Qdiv. change (/ 10)%Q with (1 # 10). lra.
Qed.

(** * Drags that start from a stored box *)

(** The stored pair of an ordered pair of candidates. *)
Lemma stored_pair (a b x y : Q) :
  (a == x)%Q -> (b == y)%Q -> (x <= y)%Q ->
  clamp_round (clamp (Math_min a b)) = clamp_round x /\
  clamp_round (clamp (Math_max a b)) = clamp_round y.
Proof.
  intros Ha Hb Hxy. rewrite !clamp_round_clamp, !clamp_round_unfold.
  unfold Math_min, Math_max. split; apply Math_round_eq.
  - assert (Hm : (Qmin a b == x)%Q)
      by (destruct (Q.min_spec a b) as [[? H]|[? H]]; rewrite H; lra).
    apply Qle_antisym; apply clamp_mono; lra.
  - assert (Hm : (Qmax a b == y)%Q)
      by (destruct (Q.max_spec a b) as [[? H]|[? H]]; rewrite H; lra).
    apply Qle_antisym; apply clamp_mono; lra.
Qed.

Lemma no_travel (p dim : Q) : ((p - p) / dim * 1000 == 0)%Q.
Proof. unfold Qdiv. ring. Qed.

Lemma stored_pair_min (a b x y : Q) :
  (a == clamp_round x)%Q -> (b == clamp_round y)%Q ->
  (clamp_round x <= clamp_round y)%Q ->
  clamp_round (clamp (Math_min a b)) = clamp_round x.
Proof.
  intros Ha Hb Hxy.
  rewrite (proj1 (stored_pair a b _ _ Ha Hb Hxy)).
  apply clamp_round_idempotent.
Qed.

Lemma stored_pair_max (a b x y : Q) :
  (a == clamp_round x)%Q -> (b == clamp_round y)%Q ->
  (clamp_round x <= clamp_round y)%Q ->
  clamp_round (clamp (Math_max a b)) = clamp_round y.
Proof.
  intros Ha Hb Hxy.
  rewrite (proj2 (stored_pair a b _ _ Ha Hb Hxy)).
  apply clamp_round_idempotent.
Qed.

(** X20. A drag is not incremental: in every move or resize mode,
    bringing the pointer back to the point where the drag started
    stores the box the drag started from again (a stored box with
    ordered corners), however far the pointer went in between. *)
Theorem drag_back_to_origin (m : Mode.t) (x y : Q) (b0 : IncidentBox)
    (r : DOMRect) :
  m <> Mode.draw ->
  ~ (width r == 0)%Q ->
  ~ (height r == 0)%Q ->
  box_ordered (clamped b0) ->
  clamped <$> handleMove (mkDrag m x y (clamped b0) r) (mkMouse x y)
  = Some (clamped b0).
Proof.
  intros Hm Hw Hh [Hoy Hox]. simpl in Hoy, Hox.
  unfold handleMove; simpl.
  rewrite (Qeq_bool_false _ _ Hw), (Qeq_bool_false _ _ Hh). simpl.
  pose proof (no_travel x (width r)) as Hdx.
  pose proof (no_travel y (height r)) as Hdy.
  set (dx := ((x - x) / width r * 1000)%Q) in *.
  set (dy := ((y - y) / height r * 1000)%Q) in *.
  destruct m; try (by destruct Hm); simpl; unfold clamped; simpl;
    f_equal; f_equal;
    first [ apply (stored_pair_min _ _ (ymin b0) (ymax b0))
          | apply (stored_pair_max _ _ (ymin b0) (ymax b0))
          | apply (stored_pair_min _ _ (xmin b0) (xmax b0))
          | apply (stored_pair_max _ _ (xmin b0) (xmax b0)) ];
    lra.
Qed.

Lemma drag_back_to_origin_witness :
  clamped <$> handleMove
                (mkDrag Mode.se 340 250
                   (clamped (mkBox (1 # 2) 10 20 300 400))
                   (mkRect 5 5 640 360))
                (mkMouse 340 250)
  = Some (clamped (mkBox (1 # 2) 10 20 300 400)).
Proof.
  apply (drag_back_to_origin Mode.se 340 250
           (mkBox (1 # 2) 10 20 300 400) (mkRect 5 5 640 360)).
  - discriminate.
  - vm_compute. discriminate.
  - vm_compute. discriminate.
  - split; vm_compute; discriminate.
Defined.

(** X21. An edge handle moves one axis only: a drag of the top or
    bottom handle of a stored, ordered box leaves [xMin] and [xMax] as
    they were, and a drag of the left or right handle leaves [yMin] and
    [yMax] as they were, wherever the pointer goes. *)
Theorem edge_handle_one_axis (m : Mode.t) (sx sy : Q) (b0 : IncidentBox)
    (r : DOMRect) (ev : MouseEvent) (box : IncidentBox) :
  box_ordered (clamped b0) ->
  handleMove (mkDrag m sx sy (clamped b0) r) ev = Some box ->
  (vertical_handle m = true ->
   xmin (clamped box) = xmin (clamped b0) /\
   xmax (clamped box) = xmax (clamped b0)) /\
  (horizontal_handle m = true ->
   ymin (clamped box) = ymin (clamped b0) /\
   ymax (clamped box) = ymax (clamped b0)).
Proof.
  intros [Hoy Hox]. simpl in Hoy, Hox. unfold handleMove; simpl.
  destruct (Qeq_bool (width r) 0 || Qeq_bool (height r) 0)%bool;
    [discriminate|].
  destruct m; simpl;
    try (intros [= <-]; split; intros Hv; try discriminate Hv;
         split; simpl;
         first [ apply (stored_pair_min _ _ (ymin b0) (ymax b0))
               | apply (stored_pair_max _ _ (ymin b0) (ymax b0))
               | apply (stored_pair_min _ _ (xmin b0) (xmax b0))
               | apply (stored_pair_max _ _ (xmin b0) (xmax b0)) ];
         lra).
  destruct (travel_below _ _ _); [discriminate|].
  intros _. split; intros Hv; discriminate Hv.
Qed.

Lemma edge_handle_one_axis_witness :
  xmin (clamped (mkBox (1 # 2) (93600 # 360) 20 300 400)) = 20%Q /\
  xmax (clamped (mkBox (1 # 2) (93600 # 360) 20 300 400)) = 400%Q.
Proof.
  apply (edge_handle_one_axis Mode.n 340 250
           (mkBox (1 # 2) 10 20 300 400) (mkRect 5 5 640 360)
           (mkMouse 300 340)
           (mkBox (1 # 2) (93600 # 360) 20 300 400)).
  - split; vm_compute; discriminate.
  - vm_compute. reflexivity.
  - reflexivity.
Defined.

(** * Pointer gestures *)

Lemma handleMove_time (ds : DragState) (ev : MouseEvent)
    (box : IncidentBox) :
  handleMove ds ev = Some box -> box_t box = box_t (startBox ds).
Proof.
  unfold handleMove.
  destruct (Qeq_bool (width (rect ds)) 0
            || Qeq_bool (height (rect ds)) 0)%bool; [discriminate|].
  destruct (mode ds); try (by intros [= <-]).
  destruct (travel_below _ _ _); [discriminate|]. by intros [= <-].
Qed.

(** After a box update every stored box is the one stored before, except
    the box of the updated keyframe of the selected item. *)
Lemma stored_box_updateBox (sel : Z) (idx : Keyframe) (newBox : IncidentBox)
    (prev : list DatasetItem) (j : Z) (k : Keyframe) :
  stored_box j k (updateBox sel idx newBox prev) = stored_box j k prev \/
  (j = sel /\ k = idx /\
   is_Some (stored_box j k prev) /\
   stored_box j k (updateBox sel idx newBox prev) = Some (clamped newBox)).
Proof.
  destruct (updateBox_cases sel idx newBox prev)
    as [->|(item & R & Hit & HR & Hi & Hl & Heq)]; [by left|].
  destruct (item_at_Some _ _ _ Hit) as (_ & Hneg & _).
  destruct (Z.eq_dec j sel) as [->|Hj].
  - destruct (decide (keyframe_index k = keyframe_index idx)) as [Hk|Hk].
    + right. apply keyframe_index_inj in Hk as ->.
      repeat split; [|by eapply updateBox_stored].
      unfold stored_box. rewrite Hit. simpl. rewrite HR. simpl.
      apply lookup_lt_is_Some. rewrite Hl. destruct idx; simpl; lia.
    + left. rewrite Heq. unfold stored_box.
      rewrite (item_at_insert_eq _ _ _ _ Hit), Hit. simpl. rewrite HR.
      simpl. apply list_lookup_insert_ne. congruence.
  - left. rewrite Heq. unfold stored_box.
    rewrite item_at_insert_ne by (done || lia). reflexivity.
Qed.

Lemma pointerMove_boxes_valid (sel : Z) (k : Keyframe) (ds : DragState)
    (ev : MouseEvent) (data : list DatasetItem) :
  boxes_valid data -> boxes_valid (pointerMove sel k ds ev data).
Proof.
  intros Hv. unfold pointerMove.
  destruct (handleMove ds ev) as [box|] eqn:Hm; [|exact Hv].
  intros j k' b Hb.
  destruct (stored_box_updateBox sel k box data j k')
    as [Hsame|(_ & _ & _ & Hnew)].
  - rewrite Hsame in Hb. by eapply Hv.
  - rewrite Hnew in Hb. injection Hb as <-.
    unfold valid_box. simpl.
    repeat split; try apply clamp_round_coord_ok;
      by apply (handleMove_ordered _ _ _ Hm).
Qed.

(** X22. Pointer gestures keep the boxes valid: if every stored box of
    the dataset is on the grid [0..1000] with [yMin <= yMax] and
    [xMin <= xMax], it still is after any sequence of presses, moves and
    releases, in any mode. *)
Theorem overlay_run_boxes_valid (sel : Z) (k : Keyframe) (st : Editor)
    (events : list PointerEvent) :
  boxes_valid (jsonData st) ->
  boxes_valid (jsonData (overlay_run sel k st events)).
Proof.
  unfold overlay_run. revert st.
  induction events as [|e events IH]; intros st Hv; [exact Hv|].
  simpl. apply IH. destruct e as [m ev r|ev|ev]; simpl.
  - by destruct (editor_box sel k (jsonData st)).
  - destruct (dragState st) as [ds|]; [|exact Hv]. simpl.
    by apply pointerMove_boxes_valid.
  - by destruct (dragState st).
Qed.

Lemma corner_record_boxes_valid : boxes_valid (single corner_record).
Proof.
  assert (H0 : coord_ok 0) by (exists 0%Z; split; [reflexivity | lia]).
  assert (H100 : coord_ok 100)
    by (exists 100%Z; split; [reflexivity | lia]).
  intros j k b. unfold stored_box, item_at. simpl.
  destruct (j <? 0)%Z; [discriminate|].
  destruct (Z.to_nat j) as [|n]; simpl; [|discriminate].
  destruct k; intros [= <-]; unfold valid_box, box_ordered; simpl;
    repeat split; try assumption; discriminate.
Qed.

Lemma overlay_run_boxes_valid_witness :
  boxes_valid
    (jsonData
       (overlay_run 0 StartFrame
          (mkEditor (single corner_record) None 0%nat)
          [ MouseDown Mode.draw (mkMouse 10 10) (mkRect 0 0 800 600);
            MouseMove (mkMouse 300 200);
            MouseUp (mkMouse 300 200) ])).
Proof.
  apply (overlay_run_boxes_valid 0 StartFrame
           (mkEditor (single corner_record) None 0%nat)).
  exact corner_record_boxes_valid.
Defined.

Lemma gesture_frame_refl (sel : Z) (k : Keyframe) (d : list DatasetItem) :
  gesture_frame sel k d d.
Proof. by repeat split. Qed.

Lemma gesture_frame_trans (sel : Z) (k : Keyframe)
    (d0 d1 d2 : list DatasetItem) :
  gesture_frame sel k d0 d1 -> gesture_frame sel k d1 d2 ->
  gesture_frame sel k d0 d2.
Proof.
  intros (A1 & A2 & A3 & A4 & A5 & A6) (B1 & B2 & B3 & B4 & B5 & B6).
  repeat split.
  - by rewrite B1.
  - intros j Hj. by rewrite B2, A2.
  - by rewrite B3.
  - by rewrite B4.
  - intros k' Hk. by rewrite B5, A5.
  - by rewrite B6.
Qed.

(** A box update that carries the stored time over changes nothing but
    the coordinates of its box. *)
Lemma updateBox_gesture_frame (sel : Z) (k : Keyframe) (box : IncidentBox)
    (prev : list DatasetItem) :
  box_t <$> stored_box sel k prev = Some (box_t box) ->
  gesture_frame sel k prev (updateBox sel k box prev).
Proof.
  intros Ht.
  destruct (updateBox_cases sel k box prev)
    as [->|(item & R & Hit & HR & Hi & Hl & Heq)];
    [apply gesture_frame_refl|].
  destruct (item_at_Some _ _ _ Hit) as (_ & Hneg & _).
  repeat split.
  - rewrite Heq. apply length_insert.
  - intros j Hj. rewrite Heq. apply item_at_insert_ne; [done | lia].
  - rewrite Heq, (item_at_insert_eq _ _ _ _ Hit), Hit. reflexivity.
  - rewrite Heq, (item_at_insert_eq _ _ _ _ Hit), Hit. simpl.
    by rewrite HR.
  - intros k' Hk.
    destruct (stored_box_updateBox sel k box prev sel k')
      as [H|(_ & Hk' & _)]; [exact H | contradiction].
  - rewrite (updateBox_stored _ _ _ _ _ _ Hit HR Hi Hl), Ht.
    reflexivity.
Qed.

Lemma overlay_step_frame (sel : Z) (k : Keyframe) (d0 : list DatasetItem)
    (st : Editor) (e : PointerEvent) :
  gesture_frame sel k d0 (jsonData st) -> drag_consistent sel k st ->
  gesture_frame sel k d0 (jsonData (overlay_step sel k st e)) /\
  drag_consistent sel k (overlay_step sel k st e).
Proof.
  intros Hf Hc. destruct e as [m ev r|ev|ev]; simpl.
  - destruct (editor_box sel k (jsonData st)) as [b|] eqn:Hb;
      [|by split].
    split; [exact Hf|]. intros ds [= <-]. simpl.
    by rewrite (editor_box_stored _ _ _ _ Hb).
  - destruct (dragState st) as [ds|] eqn:Hds; [|by split]. simpl.
    specialize (Hc ds Hds). unfold pointerMove.
    destruct (handleMove ds ev) as [box|] eqn:Hm.
    + assert (Hstep : gesture_frame sel k (jsonData st)
                        (updateBox sel k box (jsonData st))).
      { apply updateBox_gesture_frame.
        by rewrite (handleMove_time _ _ _ Hm). }
      split; [by eapply gesture_frame_trans|].
      intros ds' [= <-]. simpl.
      destruct Hstep as (_ & _ & _ & _ & _ & ->). exact Hc.
    + split; [exact Hf|]. intros ds' [= <-]. exact Hc.
  - destruct (dragState st) as [ds|]; [|by split]. simpl.
    split; [exact Hf|]. intros ds' H. discriminate H.
Qed.

(** X23. A pointer gesture changes nothing but the four coordinates of
    the active keyframe's box: after any sequence of presses, moves and
    releases that starts outside a drag, the dataset has the same
    length and the same other items, the selected item and its record
    are the same apart from the boxes, the box of the other keyframe is
    the same, and the box of the active keyframe has the same time. *)
Theorem overlay_run_frame (sel : Z) (k : Keyframe) (st : Editor)
    (events : list PointerEvent) :
  dragState st = None ->
  gesture_frame sel k (jsonData st)
    (jsonData (overlay_run sel k st events)).
Proof.
  intros Hidle.
  assert (Hgen : forall evs st',
            gesture_frame sel k (jsonData st) (jsonData st') ->
            drag_consistent sel k st' ->
            gesture_frame sel k (jsonData st)
              (jsonData (overlay_run sel k st' evs))).
  { induction evs as [|e evs IH]; intros st' Hf Hc; [exact Hf|].
    destruct (overlay_step_frame sel k _ st' e Hf Hc) as [Hf' Hc'].
    exact (IH _ Hf' Hc'). }
  apply Hgen; [apply gesture_frame_refl|].
  intros ds H. rewrite Hidle in H. discriminate H.
Qed.

Lemma overlay_run_frame_witness :
  gesture_frame 0 StartFrame (single corner_record)
    (jsonData
       (overlay_run 0 StartFrame
          (mkEditor (single corner_record) None 0%nat)
          [ MouseDown Mode.se (mkMouse 80 60) (mkRect 0 0 800 600);
            MouseMove (mkMouse 300 200);
            MouseUp (mkMouse 300 200) ])).
Proof.
  apply (overlay_run_frame 0 StartFrame
           (mkEditor (single corner_record) None 0%nat)).
  reflexivity.
Defined.

Lemma handleMove_draw_near (sx sy : Q) (b : IncidentBox) (r : DOMRect)
    (ev : MouseEvent) :
  ((clientX ev - sx) * (clientX ev - sx)
   + (clientY ev - sy) * (clientY ev - sy) < 15 * 15)%Q ->
  handleMove (mkDrag Mode.draw sx sy b r) ev = None.
Proof.
  intros Hlt. unfold handleMove; simpl.
  rewrite (travel_below_true _ _ _ Hlt).
  by destruct (Qeq_bool (width r) 0 || Qeq_bool (height r) 0)%bool.
Qed.

(** X24. A press on the free area followed by moves that stay less than
    15 pixels from the press point draws nothing: at the release the
    dataset is unchanged and the drag is over.  [onTogglePlay] is called
    once when the release is less than 5 pixels from the press point,
    and not at all when it is 5 pixels or more away. *)
Theorem click_gesture (sel : Z) (k : Keyframe) (st : Editor)
    (b : IncidentBox) (press up : MouseEvent) (r : DOMRect)
    (moves : list MouseEvent) :
  let d2 (ev : MouseEvent) :=
    ((clientX ev - clientX press) * (clientX ev - clientX press)
     + (clientY ev - clientY press) * (clientY ev - clientY press))%Q in
  editor_box sel k (jsonData st) = Some b ->
  Forall (fun ev => (d2 ev < 15 * 15)%Q) moves ->
  let st' :=
    overlay_run sel k st
      (MouseDown Mode.draw press r :: (MouseMove <$> moves)
                                      ++ [MouseUp up]) in
  jsonData st' = jsonData st /\
  dragState st' = None /\
  ((d2 up < 5 * 5)%Q -> togglePlayCalls st' = S (togglePlayCalls st)) /\
  ((5 * 5 <= d2 up)%Q -> togglePlayCalls st' = togglePlayCalls st).
Proof.
  intros d2 Hb Hmoves st'. subst st'. unfold overlay_run. simpl.
  rewrite Hb. rewrite fold_left_app.
  set (ds := mkDrag Mode.draw (clientX press) (clientY press) b r).
  assert (Hstay :
    fold_left (overlay_step sel k) (MouseMove <$> moves)
      (mkEditor (jsonData st) (Some ds) (togglePlayCalls st))
    = mkEditor (jsonData st) (Some ds) (togglePlayCalls st)).
  { induction Hmoves as [|ev moves Hev _ IH]; [reflexivity|].
    assert (Hnone : handleMove ds ev = None)
      by (apply handleMove_draw_near; exact Hev).
    cbn [fmap list_fmap fold_left overlay_step dragState jsonData
         togglePlayCalls].
    unfold pointerMove. rewrite Hnone. exact IH. }
  rewrite Hstay. simpl. repeat split.
  - intros Hnear. unfold handleUp; simpl.
    by rewrite (travel_below_true _ _ _ Hnear).
  - intros Hfar. unfold handleUp; simpl.
    by rewrite (travel_below_false _ _ _ Hfar).
Qed.

Lemma click_gesture_witness :
  jsonData
    (overlay_run 0 StartFrame
       (mkEditor (single corner_record) None 0%nat)
       (MouseDown Mode.draw (mkMouse 400 300) (mkRect 0 0 800 600)
          :: (MouseMove <$> [mkMouse 402 301; mkMouse 403 303])
             ++ [MouseUp (mkMouse 403 303)]))
  = single corner_record.
Proof.
  apply (click_gesture 0 StartFrame
           (mkEditor (single corner_record) None 0%nat)
           (mkBox (1 # 10) 0 0 100 100)
           (mkMouse 400 300) (mkMouse 403 303) (mkRect 0 0 800 600)
           [mkMouse 402 301; mkMouse 403 303]).
  - reflexivity.
  - repeat (apply Forall_cons; split; [reflexivity|]). apply Forall_nil_2.
Defined.

(** * Direct edits and the exported conversation *)

(** X25. A coordinate control edits one coordinate: the stored box has
    the clamped and rounded input at the edited position, the time of
    the box is unchanged, and every other coordinate that was on the
    grid keeps its value. *)
Theorem coordControl_stores (sel : Z) (k : Keyframe) (c : Coord) (v : Q)
    (data : list DatasetItem) (b : IncidentBox) :
  editor_box sel k data = Some b ->
  exists b',
    stored_box sel k (coordControl_onChange sel k c v data) = Some b' /\
    box_t b' = box_t b /\
    box_coord c b' = clamp_round v /\
    forall c', c' <> c -> coord_ok (box_coord c' b) ->
               (box_coord c' b' == box_coord c' b)%Q.
Proof.
  intros Hed.
  destruct (editor_box_Some _ _ _ _ Hed)
    as (item & R & Hit & HR & Hi & Hl & _).
  unfold coordControl_onChange. rewrite Hed.
  eexists. split; [by eapply updateBox_stored|].
  split; [by destruct c|]. split; [by destruct c|].
  intros c' Hne Hok.
  destruct c, c'; try contradiction; simpl in *;
    by apply clamp_round_coord_fixed.
Qed.

Lemma coordControl_stores_witness :
  exists b',
    stored_box 0 StartFrame
      (coordControl_onChange 0 StartFrame X_Max 1500
         (single corner_record)) = Some b' /\
    box_t b' = (1 # 10)%Q /\
    box_coord X_Max b' = clamp_round 1500 /\
    forall c', c' <> X_Max ->
               coord_ok (box_coord c' (mkBox (1 # 10) 0 0 100 100)) ->
               (box_coord c' b'
                == box_coord c' (mkBox (1 # 10) 0 0 100 100))%Q.
Proof.
  apply (coordControl_stores 0 StartFrame X_Max 1500
           (single corner_record) (mkBox (1 # 10) 0 0 100 100)).
  reflexivity.
Defined.

(** X26. The export rewrites assistant messages only: in a conversation
    that is not empty, every message that is not from the assistant is
    found at its position unchanged after the export, and after the
    export there is an assistant message that carries the exported
    record. *)
Theorem export_conversations_keeps_others (prompt : string) (j : Payload)
    (convs : list Message) :
  (forall (i : nat) (m : Message),
     convs !! i = Some m -> is_assistant m = false ->
     export_conversations prompt j convs !! i = Some m) /\
  (exists m, m ∈ export_conversations prompt j convs /\
             is_assistant m = true /\ value m = j).
Proof.
  split.
  - intros i m Hi Hm. destruct convs as [|c convs]; [discriminate|].
    unfold export_conversations.
    destruct (findIndex is_assistant (c :: convs)) as [a|] eqn:Ha.
    + destruct (findIndex_Some _ _ _ Ha) as (x & Hx & Hfx).
      rewrite list_lookup_alter_ne; [exact Hi|].
      intros ->. rewrite Hi in Hx. injection Hx as <-. congruence.
    + apply lookup_app_l_Some. exact Hi.
  - destruct (export_conversations_find prompt j convs) as (m & Hm & Hv).
    destruct (find_elem_of _ _ _ Hm) as [Hin Ha]. by exists m.
Qed.

Lemma export_conversations_keeps_others_witness :
  export_conversations "Describe the clip." (Json default_record)
    [ mkMessage "human" (Text "What happens?");
      mkMessage "assistant" (Text "") ] !! 0%nat
  = Some (mkMessage "human" (Text "What happens?")).
Proof.
  apply (export_conversations_keeps_others "Describe the clip."
           (Json default_record)
           [ mkMessage "human" (Text "What happens?");
             mkMessage "assistant" (Text "") ]);
    reflexivity.
Defined.
